(** * DOAJ fetch: the paginated fetch/aggregation loop of
      [scripts/1-fetch/doaj_fetch.py]

    The development embeds [extract_license_type], [process_journals] and
    the provenance part of [query_doaj] as Rocq functions and states the
    properties of the counting pipeline over them.

    Modelling conventions.
    - Python [int] is [Z]; a [Counter] is a [gmap string Z] read with
      default [0]; a [defaultdict(Counter)] is a [gmap string (gmap string Z)]
      read with default [∅].  Iteration order of the tables is not modelled.
    - JSON scalars that the code tests for truthiness, compares or passes to
      [str] are values of type [value]; JSON objects read with [.get] are
      [gmap string value] where every field is a scalar, and records with
      one optional field per key where the fields have different shapes.
      Floating-point numbers are left out, and so are inputs on which the
      Python code raises a [TypeError] or an [AttributeError] because a
      field has another shape than the API documents (a license entry that
      is not a dict, a subject list that is [null]).
    - The HTTP session is a function from the page number to the outcome of
      the request; the loop asks for every page number at most once.
    - [time.sleep] and [session.get] are recorded in an event trace carried
      by the loop state; logging is left out. *)

From stdpp Require Import base option list strings gmap fin_maps pretty.
From Stdlib Require Import ZArith Lia.

Open Scope Z_scope.

(** ** Python values *)

Module Py.

(** A JSON scalar as Python sees it after [response.json()]. *)
Inductive value : Type :=
| VNone
| VBool (b : bool)
| VInt (z : Z)
| VStr (s : string).

#[global] Instance value_eq_dec : EqDecision value.
Proof. solve_decision. Defined.

(** [bool(v)]: the test performed by [if v:] and [not v]. *)
Definition truthy (v : value) : bool :=
  match v with
  | VNone => false
  | VBool b => b
  | VInt z => negb (z =? 0)
  | VStr s => negb (String.eqb s "")
  end.

(** [str(v)], as used by [str(oa_start)] and by f-string interpolation. *)
Definition str (v : value) : string :=
  match v with
  | VNone => "None"
  | VBool true => "True"
  | VBool false => "False"
  | VInt z => pretty z
  | VStr s => s
  end.

(** [d.get(key, dflt)] on a dict of scalars. *)
Definition get (d : gmap string value) (key : string) (dflt : value) : value :=
  default dflt (d !! key).

(** [len(seq) > 0], the truth value of a list. *)
Definition nonempty {A} (l : list A) : bool :=
  match l with [] => false | _ :: _ => true end.

End Py.

Import Py.

(** ** Constants *)

Definition DEFAULT_FETCH_LIMIT : Z := 1000.

Definition UNKNOWN_CC : string := "UNKNOWN CC legal tool".

Definition CC_LICENSE_TYPES : list string :=
  [ "CC BY"; "CC BY-NC"; "CC BY-SA"; "CC BY-ND"; "CC BY-NC-SA";
    "CC BY-NC-ND"; "CC0"; "UNKNOWN CC legal tool" ].

(** [lic_type in CC_LICENSE_TYPES]: list membership by [==]; a value that is
    not a string is equal to none of the labels. *)
Definition in_CC_LICENSE_TYPES (v : value) : bool :=
  match v with
  | VStr s => bool_decide (s ∈ CC_LICENSE_TYPES)
  | _ => false
  end.

(** ** Records returned by the API *)

(** One element of [bibjson["license"]]: a dict read with [.get("type", "")]. *)
Abbreviation descriptor := (gmap string value).

(** One element of [bibjson["subject"]]: a dict, or anything else (which the
    [isinstance(subject, dict)] test rejects). *)
Inductive subject_item : Type :=
| SubjectDict (d : gmap string value)
| SubjectOther (v : value).

(** [journal["bibjson"]]; [None] is an absent key ([license] and [oa_start]
    are read with [.get(key)], for which an absent key and a JSON [null]
    both give Python [None]). *)
Record bibjson_t : Type := MkBibjson {
  bj_license : option (list descriptor);
  bj_subject : option (list subject_item);
  bj_oa_start : option value;
  bj_language : option (list string)
}.

Definition empty_bibjson : bibjson_t :=
  {| bj_license := None; bj_subject := None;
     bj_oa_start := None; bj_language := None |}.

Record journal : Type := MkJournal {
  j_bibjson : option bibjson_t
}.

(** ** [extract_license_type] *)

(** The [for lic in license_info] loop of [extract_license_type]; [None]
    when the loop runs to its end without returning. *)
Fixpoint scan_license_info (license_info : list descriptor) : option string :=
  match license_info with
  | [] => None
  | lic :: rest =>
      let lic_type := get lic "type" (VStr "") in
      if in_CC_LICENSE_TYPES lic_type then Some (str lic_type)
      else scan_license_info rest
  end.

(** [license_info] is [None] (Python [None]) or a list of descriptors. *)
Definition extract_license_type (license_info : option (list descriptor)) : string :=
  match license_info with
  | None => UNKNOWN_CC
  | Some l =>
      if negb (nonempty l) then UNKNOWN_CC
      else match scan_license_info l with
           | Some lic_type => lic_type
           | None => UNKNOWN_CC
           end
  end.

(** ** Counter tables *)

(** [c[k]] on a [Counter]: a missing key reads as [0]. *)
Definition counter_get (c : gmap string Z) (k : string) : Z :=
  default 0 (c !! k).

(** [c[k] += 1]. *)
Definition counter_incr (k : string) (c : gmap string Z) : gmap string Z :=
  <[k := counter_get c k + 1]> c.

(** [d[cat]] on a [defaultdict(Counter)]: a missing key reads as an empty
    counter. *)
Definition nested_get (d : gmap string (gmap string Z)) (cat : string)
  : gmap string Z :=
  default ∅ (d !! cat).

(** [d[cat][k] += 1]. *)
Definition nested_incr (cat k : string) (d : gmap string (gmap string Z))
  : gmap string (gmap string Z) :=
  <[cat := counter_incr k (nested_get d cat)]> d.

(** [sum(c.values())]. *)
Definition counter_total (c : gmap string Z) : Z :=
  map_fold (λ _ v acc, v + acc) 0 c.

(** [sum(d[cat].values())]: the total of one category of a nested table. *)
Definition category_total (d : gmap string (gmap string Z)) (cat : string) : Z :=
  counter_total (nested_get d cat).

(** The five values [process_journals] builds and returns. *)
Record tables : Type := MkTables {
  license_counts : gmap string Z;
  subject_counts : gmap string (gmap string Z);
  language_counts : gmap string (gmap string Z);
  year_counts : gmap string (gmap string Z);
  total_processed : Z
}.

Definition empty_tables : tables :=
  {| license_counts := ∅; subject_counts := ∅; language_counts := ∅;
     year_counts := ∅; total_processed := 0 |}.

(** ** The body of [for journal in results] *)

Definition get_bibjson (j : journal) : bibjson_t :=
  default empty_bibjson (j_bibjson j).

(** [bool(license_info)] for [license_info = bibjson.get("license")]. *)
Definition license_info_truthy (license_info : option (list descriptor)) : bool :=
  match license_info with
  | None => false
  | Some l => nonempty l
  end.

(** One round of [for subject in subjects]. *)
Definition subject_body (license_type : string) (sc : gmap string (gmap string Z))
    (subject : subject_item) : gmap string (gmap string Z) :=
  match subject with
  | SubjectDict d =>
      let code := get d "code" (VStr "") in
      let term := get d "term" (VStr "") in
      if truthy code && truthy term
      then nested_incr license_type (str code +:+ "|" +:+ str term) sc
      else sc
  | SubjectOther _ => sc
  end.

(** The [if oa_start: ... else: ...] statement. *)
Definition year_key (oa_start : value) : string :=
  if truthy oa_start then str oa_start else "Unknown".

(** The statements after the two guards, for a record of category
    [license_type]. *)
Definition accumulate (license_type : string) (bibjson : bibjson_t) (t : tables)
  : tables :=
  let subjects := default [] (bj_subject bibjson) in
  let oa_start := default VNone (bj_oa_start bibjson) in
  let languages := default [] (bj_language bibjson) in
  {| license_counts := counter_incr license_type (license_counts t);
     subject_counts := foldl (subject_body license_type) (subject_counts t) subjects;
     year_counts := nested_incr license_type (year_key oa_start) (year_counts t);
     language_counts :=
       foldl (λ lc lang, nested_incr license_type lang lc) (language_counts t) languages;
     total_processed := total_processed t + 1 |}.

(** The loop body after the budget test; returning [t] is [continue]. *)
Definition journal_body (j : journal) (t : tables) : tables :=
  let bibjson := get_bibjson j in
  let license_info := bj_license bibjson in
  if negb (license_info_truthy license_info) then t
  else
    let license_type := extract_license_type license_info in
    if String.eqb license_type UNKNOWN_CC then t
    else accumulate license_type bibjson t.

(** [for journal in results: if total_processed >= args.limit: break; ...]. *)
Fixpoint for_journals (limit : Z) (results : list journal) (t : tables) : tables :=
  match results with
  | [] => t
  | j :: rest =>
      if total_processed t >=? limit then t
      else for_journals limit rest (journal_body j t)
  end.

(** ** The [while] loop of [process_journals] *)

(** Outcome of [session.get] + [raise_for_status] + [json] for one page: a
    [RequestException], or the value of [data.get("results", [])]. *)
Inductive response : Type :=
| RequestException
| Data (results : list journal).

Inductive event : Type :=
| EvGet (page : nat)
| EvSleep.

#[global] Instance event_eq_dec : EqDecision event.
Proof. solve_decision. Defined.

Record state : Type := MkState {
  st_tables : tables;
  st_page : nat;
  st_trace : list event
}.

Definition init_state : state :=
  {| st_tables := empty_tables; st_page := 1; st_trace := [] |}.

Inductive flow : Type := Continue | Break.

(** One round of the [while] loop, entered with [total_processed < limit]. *)
Definition while_body (session : nat → response) (limit : Z) (st : state)
  : flow * state :=
  let trace := st_trace st ++ [EvGet (st_page st)] in
  match session (st_page st) with
  | RequestException =>
      (Break, {| st_tables := st_tables st; st_page := st_page st; st_trace := trace |})
  | Data results =>
      if negb (nonempty results)
      then (Break, {| st_tables := st_tables st; st_page := st_page st; st_trace := trace |})
      else
        (Continue,
         {| st_tables := for_journals limit results (st_tables st);
            st_page := st_page st + 1;
            st_trace := trace ++ [EvSleep] |})
  end.

(** The result of running the loop with a bound on the number of rounds:
    the loop was left with state [st], or [fuel] rounds were not enough and
    the loop is back at its head with state [st]. *)
Inductive loop_result : Type :=
| Returned (st : state)
| OutOfFuel (st : state).

Definition result_state (r : loop_result) : state :=
  match r with Returned st | OutOfFuel st => st end.

(** [while total_processed < args.limit: ...]. *)
Fixpoint while_loop (fuel : nat) (session : nat → response) (limit : Z)
    (st : state) : loop_result :=
  if total_processed (st_tables st) <? limit then
    match fuel with
    | O => OutOfFuel st
    | S fuel' =>
        match while_body session limit st with
        | (Break, st') => Returned st'
        | (Continue, st') => while_loop fuel' session limit st'
        end
    end
  else Returned st.

Record args_t : Type := MkArgs {
  limit : Z;
  enable_save : bool;
  enable_git : bool
}.

(** The loop of [process_journals] from its initial state, with the final
    page counter and event trace; [None] when [fuel] rounds were not enough
    to leave the loop. *)
Definition run_loop (fuel : nat) (session : nat → response) (args : args_t)
  : option state :=
  match while_loop fuel session (limit args) init_state with
  | Returned st => Some st
  | OutOfFuel _ => None
  end.

Definition process_journals (fuel : nat) (session : nat → response) (args : args_t)
  : option tables :=
  st_tables <$> run_loop fuel session args.

(** ** Provenance written by [query_doaj] *)

Record provenance : Type := MkProvenance {
  total_articles_fetched : Z;
  total_journals_fetched : Z;
  prov_total_processed : Z;
  prov_limit : Z;
  note : string
}.

(** [provenance_data] of [query_doaj] (the quarter and the script name, which
    come from the file system, are left out). *)
Definition query_doaj (fuel : nat) (session : nat → response) (args : args_t)
  : option provenance :=
  match process_journals fuel session args with
  | None => None
  | Some t =>
      let journals_processed := total_processed t in
      Some {| total_articles_fetched := 0;
              total_journals_fetched := journals_processed;
              prov_total_processed := journals_processed;
              prov_limit := limit args;
              note := "Articles not processed - DOAJ API doesn't provide license info for articles" |}
  end.


(** ** Reference definitions for the statements *)

(** The descriptor's ["type"] is one of [CC_LICENSE_TYPES]. *)
Definition recognized (lic : descriptor) : Prop :=
  in_CC_LICENSE_TYPES (get lic "type" (VStr "")) = true.

#[global] Instance recognized_dec lic : Decision (recognized lic).
Proof. unfold recognized. apply _. Defined.

(** The spec's classification of a record (section 4.2 and the glossary),
    written from its words and not from the code: a record whose license
    information is absent or empty is unqualified ([None]); any other record
    is a qualifying record, classified with the type of the first descriptor
    whose type is in the recognized set, or with the catch-all category when
    no descriptor has one. *)
Definition spec_classify (j : journal) : option string :=
  match bj_license (get_bibjson j) with
  | None | Some [] => None
  | Some l =>
      match list_find recognized l with
      | Some (_, lic) => Some (str (get lic "type" (VStr "")))
      | None => Some UNKNOWN_CC
      end
  end.

(** A qualifying record of the spec whose category is not the catch-all. *)
Definition spec_counted (j : journal) : Prop :=
  ∃ cat, spec_classify j = Some cat ∧ cat ≠ UNKNOWN_CC.

#[global] Instance spec_counted_dec j : Decision (spec_counted j).
Proof.
  unfold spec_counted. destruct (spec_classify j) as [c|].
  - destruct (decide (c = UNKNOWN_CC)) as [->|Hne].
    + right. by intros (cat & [= <-] & Hcat).
    + left. by exists c.
  - right. by intros (cat & Hcat & _).
Defined.

(** The path a record takes through the two guards of the loop body. *)
Inductive verdict : Type :=
| SkipNoLicense              (* [if not license_info: continue] *)
| SkipUnknown                (* [if license_type == "UNKNOWN CC legal tool": continue] *)
| Counted (license_type : string).

Definition guard (j : journal) : verdict :=
  let license_info := bj_license (get_bibjson j) in
  if negb (license_info_truthy license_info) then SkipNoLicense
  else
    let license_type := extract_license_type license_info in
    if String.eqb license_type UNKNOWN_CC then SkipUnknown
    else Counted license_type.

(** The category under which the loop counts a record, if it counts it. *)
Definition category_of (j : journal) : option string :=
  match guard j with
  | Counted license_type => Some license_type
  | SkipNoLicense | SkipUnknown => None
  end.

Definition qualifies (j : journal) : Prop := is_Some (category_of j).

#[global] Instance qualifies_dec j : Decision (qualifies j).
Proof. unfold qualifies. apply _. Defined.

Definition has_category (cat : string) (j : journal) : Prop :=
  category_of j = Some cat.

#[global] Instance has_category_dec cat j : Decision (has_category cat j).
Proof. unfold has_category. apply _. Defined.

(** The records of one page. *)
Definition results_of (r : response) : list journal :=
  match r with
  | RequestException => []
  | Data results => results
  end.

(** The records of pages [1 .. k], in order. *)
Definition fetched (session : nat → response) (k : nat) : list journal :=
  flat_map (λ p, results_of (session p)) (seq 1 k).

(** The first [limit] qualifying records of pages [1 .. k]. *)
Definition processed (session : nat → response) (limit : Z) (k : nat)
  : list journal :=
  take (Z.to_nat limit) (filter qualifies (fetched session k)).

(** Counting a list of records one after the other, without a budget. *)
Abbreviation count_all := (foldl (λ t j, journal_body j t)).

(** The tables obtained by counting the records of [l] from empty tables. *)
Definition tally (l : list journal) : tables :=
  count_all empty_tables l.

(** The number of records of [l] counted under [cat]. *)
Definition count_category (cat : string) (l : list journal) : Z :=
  Z.of_nat (length (filter (has_category cat) l)).

(** A subject entry that the subject loop counts: a dict whose ["code"] and
    ["term"] are both truthy. *)
Definition countable_subject (s : subject_item) : bool :=
  match s with
  | SubjectDict d => truthy (get d "code" (VStr "")) && truthy (get d "term" (VStr ""))
  | SubjectOther _ => false
  end.

Definition countable_subjects (j : journal) : Z :=
  Z.of_nat (length (filter (λ s, countable_subject s = true)
                           (default [] (bj_subject (get_bibjson j))))).

(** The number of countable subject entries on the records of [l] that are
    counted under [cat]. *)
Fixpoint subject_entries (cat : string) (l : list journal) : Z :=
  match l with
  | [] => 0
  | j :: rest =>
      (if decide (has_category cat j) then countable_subjects j else 0)
      + subject_entries cat rest
  end.

(** The events of [k] complete rounds: a request and a sleep per page. *)
Definition rounds (k : nat) : list event :=
  flat_map (λ p, [EvGet p; EvSleep]) (seq 1 k).

(** Pages [1 .. k] were delivered and are not empty. *)
Definition pages_nonempty (session : nat → response) (k : nat) : Prop :=
  ∀ p, (1 ≤ p ≤ k)%nat → ∃ results, session p = Data results ∧ results ≠ [].

(** The state at the head of the [while] loop after [k] complete rounds. *)
Definition at_head (session : nat → response) (limit : Z) (k : nat)
    (st : state) : Prop :=
  st_page st = S k
  ∧ st_tables st = tally (processed session limit k)
  ∧ st_trace st = rounds k
  ∧ pages_nonempty session k.

(** The way the loop was left after [k] complete rounds. *)
Inductive exit_kind : Type :=
| BudgetReached      (* the [while] test failed *)
| EmptyPage          (* [if not results: break] *)
| RequestFailed.     (* [except RequestException: ... break] *)

(** The state with which the loop is left after [k] complete rounds. *)
Definition at_exit (session : nat → response) (limit : Z) (k : nat)
    (how : exit_kind) (st : state) : Prop :=
  st_page st = S k
  ∧ st_tables st = tally (processed session limit k)
  ∧ pages_nonempty session k
  ∧ match how with
    | BudgetReached =>
        limit ≤ total_processed (st_tables st) ∧ st_trace st = rounds k
    | EmptyPage =>
        total_processed (st_tables st) < limit
        ∧ session (S k) = Data []
        ∧ st_trace st = rounds k ++ [EvGet (S k)]
    | RequestFailed =>
        total_processed (st_tables st) < limit
        ∧ session (S k) = RequestException
        ∧ st_trace st = rounds k ++ [EvGet (S k)]
    end.

(** ** Sample records and sessions *)

Definition license_of (type : string) : descriptor := {[ "type" := VStr type ]}.

Definition subject_of (code term : string) : subject_item :=
  SubjectDict {[ "code" := VStr code; "term" := VStr term ]}.

(** A CC BY journal with two subject entries. *)
Definition journal_cc_by : journal :=
  {| j_bibjson := Some
       {| bj_license := Some [license_of "CC BY"];
          bj_subject := Some [subject_of "Q" "Science"; subject_of "R" "Medicine"];
          bj_oa_start := Some (VInt 2005);
          bj_language := Some ["EN"] |} |}.

(** A journal whose only license is not a CC license. *)
Definition journal_other_license : journal :=
  {| j_bibjson := Some
       {| bj_license := Some [license_of "Publisher's own license"];
          bj_subject := Some [subject_of "Q" "Science"];
          bj_oa_start := Some (VInt 2010);
          bj_language := Some ["EN"] |} |}.

(** A journal with an empty license list. *)
Definition journal_no_license : journal :=
  {| j_bibjson := Some
       {| bj_license := Some [];
          bj_subject := Some [subject_of "Q" "Science"];
          bj_oa_start := Some (VInt 1999);
          bj_language := Some ["FR"] |} |}.

(** A CC0 journal whose [oa_start] is the integer [0]. *)
Definition journal_year_zero : journal :=
  {| j_bibjson := Some
       {| bj_license := Some [license_of "CC0"];
          bj_subject := None;
          bj_oa_start := Some (VInt 0);
          bj_language := Some ["DE"] |} |}.

(** One page holding [journal_cc_by], then an empty page. *)
Definition session_one_page (page : nat) : response :=
  match page with
  | 1%nat => Data [journal_cc_by]
  | _ => Data []
  end.

(** One page holding [journal_other_license], then an empty page. *)
Definition session_other_license (page : nat) : response :=
  match page with
  | 1%nat => Data [journal_other_license]
  | _ => Data []
  end.

(** Page 1 holds [journal_cc_by; journal_no_license], the request for
    page 2 fails, page 3 would hold one more record. *)
Definition session_failing (page : nat) : response :=
  match page with
  | 1%nat => Data [journal_cc_by; journal_no_license]
  | 2%nat => RequestException
  | 3%nat => Data [journal_year_zero]
  | _ => Data []
  end.

(** Three pages: two CC BY records; a CC0 record and a record without
    license; a CC BY record and a record with an unrecognized license. *)
Definition session_three_pages (page : nat) : response :=
  match page with
  | 1%nat => Data [journal_cc_by; journal_cc_by]
  | 2%nat => Data [journal_year_zero; journal_no_license]
  | 3%nat => Data [journal_cc_by; journal_other_license]
  | _ => Data []
  end.

Definition args_of (limit : Z) : args_t :=
  {| limit := limit; enable_save := false; enable_git := false |}.

(** ** Reference definitions for the further properties *)

(** The sum of [w x] over the elements of [l]. *)
Definition sum_over {A} (w : A → Z) (l : list A) : Z :=
  foldr (λ x acc, w x + acc) 0 l.

(** The number of times [x] occurs in [l]. *)
Definition occurrences (x : string) (l : list string) : Z :=
  Z.of_nat (length (filter (λ y, y = x) l)).

(** [d[cat][k]], read with both defaults. *)
Definition cell (d : gmap string (gmap string Z)) (cat k : string) : Z :=
  counter_get (nested_get d cat) k.

Definition languages_of (j : journal) : list string :=
  default [] (bj_language (get_bibjson j)).

Definition subjects_of (j : journal) : list subject_item :=
  default [] (bj_subject (get_bibjson j)).

(** The year bucket that belongs to a value of [oa_start], case by case:
    [None], [False], the integer 0 and the empty string belong to
    ["Unknown"]; [True] belongs to ["True"], a non-zero integer to its
    decimal text and a non-empty string to itself. *)
Definition year_bucket (oa_start : value) : string :=
  match oa_start with
  | VNone => "Unknown"
  | VBool b => if b then "True" else "Unknown"
  | VInt z => if decide (z = 0) then "Unknown" else pretty z
  | VStr s => if decide (s = "") then "Unknown" else s
  end.

(** The year bucket of a record; an absent [oa_start] reads as [None]. *)
Definition year_of (j : journal) : string :=
  match bj_oa_start (get_bibjson j) with
  | Some oa_start => year_bucket oa_start
  | None => "Unknown"
  end.

(** The key under which the subject loop counts an entry, if it counts
    it. *)
Definition subject_key (s : subject_item) : option string :=
  match s with
  | SubjectDict d =>
      let code := get d "code" (VStr "") in
      let term := get d "term" (VStr "") in
      if truthy code && truthy term
      then Some (str code +:+ "|" +:+ str term)
      else None
  | SubjectOther _ => None
  end.

(** What one record adds to [language_counts[cat][lang]]. *)
Definition language_weight (cat lang : string) (j : journal) : Z :=
  if decide (has_category cat j) then occurrences lang (languages_of j) else 0.

(** What one record adds to [year_counts[cat][year]]. *)
Definition year_weight (cat year : string) (j : journal) : Z :=
  if decide (has_category cat j ∧ year_of j = year) then 1 else 0.

(** What one record adds to [subject_counts[cat][key]]. *)
Definition subject_weight (cat key : string) (j : journal) : Z :=
  if decide (has_category cat j)
  then Z.of_nat (length (filter (λ s, subject_key s = Some key) (subjects_of j)))
  else 0.

(** What one record adds to [license_counts[cat]]. *)
Definition license_weight (cat : string) (j : journal) : Z :=
  if decide (has_category cat j) then 1 else 0.

(** The number of qualifying records on pages [1 .. k]. *)
Definition qualifying_on (session : nat → response) (k : nat) : Z :=
  Z.of_nat (length (filter qualifies (fetched session k))).

(** The page numbers of the requests of a trace, in order. *)
Definition requested (trace : list event) : list nat :=
  omap (λ e, match e with EvGet p => Some p | EvSleep => None end) trace.

(** The number of delays of a trace. *)
Definition sleeps (trace : list event) : nat :=
  length (filter (λ e, e = EvSleep) trace).

(** The seven labels under which records are counted. *)
Definition counted_labels : list string :=
  [ "CC BY"; "CC BY-NC"; "CC BY-SA"; "CC BY-ND"; "CC BY-NC-SA";
    "CC BY-NC-ND"; "CC0" ].

(** Every stored count is at least 1. *)
Definition positive_counter (c : gmap string Z) : Prop :=
  map_Forall (λ _ n, 1 ≤ n) c.

(** Every category of a nested table has a non-empty counter whose counts
    are at least 1. *)
Definition positive_nested (d : gmap string (gmap string Z)) : Prop :=
  map_Forall (λ _ c, c ≠ ∅ ∧ positive_counter c) d.

(** The shape the four tables keep while records are counted. *)
Definition tables_wf (t : tables) : Prop :=
  positive_counter (license_counts t)
  ∧ positive_nested (subject_counts t)
  ∧ positive_nested (language_counts t)
  ∧ positive_nested (year_counts t)
  ∧ dom (year_counts t) = dom (license_counts t)
  ∧ dom (subject_counts t) ⊆ dom (license_counts t)
  ∧ dom (language_counts t) ⊆ dom (license_counts t)
  ∧ ∀ cat, cat ∈ dom (license_counts t) → cat ∈ counted_labels.

(** ** Output files *)

Definition HEADER_COUNT : list string := ["TOOL_IDENTIFIER"; "COUNT"].

Definition HEADER_SUBJECT_REPORT : list string :=
  ["TOOL_IDENTIFIER"; "SUBJECT_CODE"; "SUBJECT_LABEL"; "COUNT"].

Definition HEADER_LANGUAGE : list string :=
  ["TOOL_IDENTIFIER"; "LANGUAGE_CODE"; "LANGUAGE"; "COUNT"].

Definition HEADER_YEAR : list string := ["TOOL_IDENTIFIER"; "YEAR"; "COUNT"].

Definition LANGUAGE_NAMES : gmap string string :=
  list_to_map [
    ("EN", "English"); ("ES", "Spanish"); ("PT", "Portuguese");
    ("FR", "French"); ("DE", "German"); ("IT", "Italian"); ("RU", "Russian");
    ("ZH", "Chinese"); ("JA", "Japanese"); ("AR", "Arabic");
    ("TR", "Turkish"); ("NL", "Dutch"); ("SV", "Swedish");
    ("NO", "Norwegian"); ("DA", "Danish"); ("FI", "Finnish");
    ("PL", "Polish"); ("CS", "Czech"); ("HU", "Hungarian");
    ("RO", "Romanian"); ("BG", "Bulgarian"); ("HR", "Croatian");
    ("SK", "Slovak"); ("SL", "Slovenian"); ("ET", "Estonian");
    ("LV", "Latvian"); ("LT", "Lithuanian"); ("EL", "Greek");
    ("CA", "Catalan"); ("IS", "Icelandic"); ("MK", "Macedonian");
    ("SR", "Serbian"); ("UK", "Ukrainian"); ("BE", "Belarusian");
    ("KO", "Korean"); ("TH", "Thai"); ("VI", "Vietnamese");
    ("ID", "Indonesian"); ("MS", "Malay"); ("HI", "Hindi");
    ("BN", "Bengali"); ("UR", "Urdu"); ("FA", "Persian"); ("HE", "Hebrew");
    ("SW", "Swahili"); ("AF", "Afrikaans")
  ].

(** The character ["|"]. *)
Definition bar : Ascii.ascii :=
  match "|"%string with
  | String c _ => c
  | EmptyString => Ascii.zero
  end.

(** ["|" in s]. *)
Fixpoint has_bar (s : string) : bool :=
  match s with
  | EmptyString => false
  | String c rest => Ascii.eqb c bar || has_bar rest
  end.

(** [s.split("|", 1)] for an [s] that holds a bar: the text in front of the
    first bar and the text behind it; [None] when [s] holds no bar.  The bar
    is an ASCII character, so cutting the UTF-8 bytes of a string at it cuts
    between characters. *)
Fixpoint split_bar (s : string) : option (string * string) :=
  match s with
  | EmptyString => None
  | String c rest =>
      if Ascii.eqb c bar then Some (EmptyString, rest)
      else match split_bar rest with
           | Some (code, label) => Some (String c code, label)
           | None => None
           end
  end.

(** The [if "|" in subject_info: ... else: ...] statement of
    [save_count_data]. *)
Definition subject_code_label (subject_info : string) : string * string :=
  if has_bar subject_info then
    match split_bar subject_info with
    | Some (code, label) => (code, label)
    | None => (subject_info, subject_info)
    end
  else (subject_info, subject_info).

(** A row handed to [csv.DictWriter.writerow], as the list of its values in
    the order of the header. *)
Definition count_row (lic : string) (count : Z) : list value :=
  [VStr lic; VInt count].

Definition subject_row (lic subject_info : string) (count : Z) : list value :=
  let '(code, label) := subject_code_label subject_info in
  [VStr lic; VStr code; VStr label; VInt count].

Definition language_row (lic lang_code : string) (count : Z) : list value :=
  let lang_name := default lang_code (LANGUAGE_NAMES !! lang_code) in
  [VStr lic; VStr lang_code; VStr lang_name; VInt count].

Definition year_row (lic year : string) (count : Z) : list value :=
  [VStr lic; VStr year; VInt count].

(** The rows of a [Counter], one per item.  The items come in the order of
    [map_to_list], not in insertion order. *)
Definition count_rows (license_counts : gmap string Z) : list (list value) :=
  (λ item, count_row item.1 item.2) <$> map_to_list license_counts.

(** The rows of the nested loops [for lic, inner in d.items(): for k, count
    in inner.items(): ...]. *)
Definition nested_rows (row : string → string → Z → list value)
    (d : gmap string (gmap string Z)) : list (list value) :=
  map_to_list d ≫= λ outer,
    (λ item, row outer.1 item.1 item.2) <$> map_to_list outer.2.

(** The content of a file: a header row and data rows written by
    [csv.DictWriter], or the dict dumped by [yaml.dump]. *)
Inductive file : Type :=
| CsvFile (header : list string) (rows : list (list value))
| YamlFile (data : provenance).

(** The five paths, which the script builds from [shared.setup]. *)
Record file_paths : Type := MkPaths {
  FILE_DOAJ_COUNT : string;
  FILE_DOAJ_SUBJECT_REPORT : string;
  FILE_DOAJ_LANGUAGE : string;
  FILE_DOAJ_YEAR : string;
  FILE_PROVENANCE : string
}.

Definition data_files (P : file_paths) : list string :=
  [FILE_DOAJ_COUNT P; FILE_DOAJ_SUBJECT_REPORT P; FILE_DOAJ_LANGUAGE P;
   FILE_DOAJ_YEAR P].

(** [initialize_data_file]: the file is written, with its header and no
    row, only if it does not exist. *)
Definition initialize_data_file (file_path : string) (headers : list string)
    (fs : gmap string file) : gmap string file :=
  match fs !! file_path with
  | Some _ => fs
  | None => <[file_path := CsvFile headers []]> fs
  end.

(** [initialize_all_data_files].  The file system of the model holds files
    only: the data directory is taken to exist, so [os.makedirs(...,
    exist_ok=True)] changes nothing and is left out. *)
Definition initialize_all_data_files (P : file_paths) (args : args_t)
    (fs : gmap string file) : gmap string file :=
  if negb (enable_save args) then fs
  else
    let fs := initialize_data_file (FILE_DOAJ_COUNT P) HEADER_COUNT fs in
    let fs := initialize_data_file (FILE_DOAJ_SUBJECT_REPORT P)
                HEADER_SUBJECT_REPORT fs in
    let fs := initialize_data_file (FILE_DOAJ_LANGUAGE P) HEADER_LANGUAGE fs in
    initialize_data_file (FILE_DOAJ_YEAR P) HEADER_YEAR fs.

(** [save_count_data]: each file is opened with mode ["w"], which replaces
    what it held.  The data directory is taken to exist; a run in which it
    is missing, where [open] raises [FileNotFoundError], is outside the
    model. *)
Definition save_count_data (P : file_paths)
    (license_counts : gmap string Z)
    (subject_counts language_counts year_counts : gmap string (gmap string Z))
    (fs : gmap string file) : gmap string file :=
  let fs := <[FILE_DOAJ_COUNT P :=
                CsvFile HEADER_COUNT (count_rows license_counts)]> fs in
  let fs := <[FILE_DOAJ_SUBJECT_REPORT P :=
                CsvFile HEADER_SUBJECT_REPORT
                  (nested_rows subject_row subject_counts)]> fs in
  let fs := <[FILE_DOAJ_LANGUAGE P :=
                CsvFile HEADER_LANGUAGE
                  (nested_rows language_row language_counts)]> fs in
  <[FILE_DOAJ_YEAR P :=
      CsvFile HEADER_YEAR (nested_rows year_row year_counts)]> fs.

(** [query_doaj] with the files it writes.  [provenance_ok] says whether
    opening the provenance file succeeds; when it does not, the exception is
    caught and the file system stays as it is. *)
Definition query_doaj_files (P : file_paths) (provenance_ok : bool)
    (fuel : nat) (session : nat → response) (args : args_t)
    (fs : gmap string file) : option (gmap string file) :=
  match process_journals fuel session args with
  | None => None
  | Some t =>
      let journals_processed := total_processed t in
      let fs :=
        if enable_save args
        then save_count_data P (license_counts t) (subject_counts t)
               (language_counts t) (year_counts t) fs
        else fs in
      let provenance_data :=
        {| total_articles_fetched := 0;
           total_journals_fetched := journals_processed;
           prov_total_processed := journals_processed;
           prov_limit := limit args;
           note := "Articles not processed - DOAJ API doesn't provide license info for articles" |} in
      Some (if provenance_ok
            then <[FILE_PROVENANCE P := YamlFile provenance_data]> fs
            else fs)
  end.

(** The sum of the [COUNT] column, which is the last one of every file. *)
Definition count_column (rows : list (list value)) : Z :=
  sum_over (λ row, match last row with Some (VInt n) => n | _ => 0 end) rows.

(** [sum(sum(c.values()) for c in d.values())]. *)
Definition nested_total (d : gmap string (gmap string Z)) : Z :=
  map_fold (λ _ c acc, counter_total c + acc) 0 d.

(** Every key of every counter of [d] satisfies [P]. *)
Definition nested_keys (P : string → Prop) (d : gmap string (gmap string Z))
  : Prop :=
  map_Forall (λ _ c, map_Forall (λ k _, P k) c) d.

(** Sample paths. *)
Definition sample_paths : file_paths :=
  {| FILE_DOAJ_COUNT := "data/doaj_1_count.csv";
     FILE_DOAJ_SUBJECT_REPORT := "data/doaj_2_count_by_subject_report.csv";
     FILE_DOAJ_LANGUAGE := "data/doaj_3_count_by_language.csv";
     FILE_DOAJ_YEAR := "data/doaj_4_count_by_year.csv";
     FILE_PROVENANCE := "data/doaj_provenance.yaml" |}.

(** * Properties *)

(** ** Counters *)

Section counters.
Implicit Types (c : gmap string Z) (d : gmap string (gmap string Z)).
Implicit Types (k cat : string).

Lemma counter_get_incr_eq c k :
  counter_get (counter_incr k c) k = counter_get c k + 1.
Proof. unfold counter_incr, counter_get at 1. by rewrite lookup_insert_eq. Qed.

Lemma counter_get_incr_ne c k k' :
  k ≠ k' → counter_get (counter_incr k c) k' = counter_get c k'.
Proof.
  intros Hne. unfold counter_incr, counter_get at 1.
  by rewrite lookup_insert_ne.
Qed.

Lemma counter_total_empty : counter_total ∅ = 0.
Proof. unfold counter_total. by rewrite map_fold_empty. Qed.

Lemma counter_total_insert_fresh c k v :
  c !! k = None → counter_total (<[k:=v]> c) = v + counter_total c.
Proof.
  intros Hk. unfold counter_total.
  rewrite map_fold_insert_L; [done | intros; lia | done].
Qed.

Lemma counter_total_lookup c k v :
  c !! k = Some v → counter_total c = v + counter_total (delete k c).
Proof.
  intros Hk. unfold counter_total.
  rewrite (map_fold_delete_L _ _ k v c); [done | intros; lia | done].
Qed.

(** [c[k] += 1] adds one to [sum(c.values())]. *)
Lemma counter_total_incr c k :
  counter_total (counter_incr k c) = counter_total c + 1.
Proof.
  unfold counter_incr, counter_get.
  destruct (c !! k) as [v|] eqn:Hk; simpl.
  - rewrite <- insert_delete_eq.
    rewrite counter_total_insert_fresh by apply lookup_delete_eq.
    rewrite (counter_total_lookup c k v Hk). lia.
  - rewrite counter_total_insert_fresh by done. lia.
Qed.

Lemma nested_get_incr_eq d cat k :
  nested_get (nested_incr cat k d) cat = counter_incr k (nested_get d cat).
Proof. unfold nested_incr, nested_get at 1. by rewrite lookup_insert_eq. Qed.

Lemma nested_get_incr_ne d cat cat' k :
  cat ≠ cat' → nested_get (nested_incr cat k d) cat' = nested_get d cat'.
Proof.
  intros Hne. unfold nested_incr, nested_get at 1.
  by rewrite lookup_insert_ne.
Qed.

Lemma category_total_incr_eq d cat k :
  category_total (nested_incr cat k d) cat = category_total d cat + 1.
Proof.
  unfold category_total. by rewrite nested_get_incr_eq, counter_total_incr.
Qed.

Lemma category_total_incr_ne d cat cat' k :
  cat ≠ cat' → category_total (nested_incr cat k d) cat' = category_total d cat'.
Proof. intros Hne. unfold category_total. by rewrite nested_get_incr_ne. Qed.

Lemma category_total_empty cat : category_total ∅ cat = 0.
Proof.
  unfold category_total, nested_get. rewrite lookup_empty. simpl.
  apply counter_total_empty.
Qed.

End counters.

(** ** The classifier *)

Lemma in_CC_LICENSE_TYPES_str v :
  in_CC_LICENSE_TYPES v = true → v = VStr (str v) ∧ str v ∈ CC_LICENSE_TYPES.
Proof.
  destruct v; simpl; try discriminate.
  intros H. split; [done|]. by apply bool_decide_eq_true in H.
Qed.

Lemma scan_license_info_first (pre post : list descriptor) lic :
  Forall (λ x, ¬ recognized x) pre → recognized lic →
  scan_license_info (pre ++ lic :: post) = Some (str (get lic "type" (VStr ""))).
Proof.
  intros Hpre Hlic. induction Hpre as [|x pre Hx _ IH]; simpl.
  - unfold recognized in Hlic. by rewrite Hlic.
  - unfold recognized in Hx. apply not_true_is_false in Hx. by rewrite Hx.
Qed.

Lemma scan_license_info_none (l : list descriptor) :
  Forall (λ x, ¬ recognized x) l → scan_license_info l = None.
Proof.
  induction 1 as [|x l Hx _ IH]; simpl; [done|].
  unfold recognized in Hx. apply not_true_is_false in Hx. by rewrite Hx.
Qed.

Lemma scan_license_info_member (l : list descriptor) s :
  scan_license_info l = Some s → s ∈ CC_LICENSE_TYPES.
Proof.
  induction l as [|lic l IH]; simpl; [done|].
  destruct (in_CC_LICENSE_TYPES _) eqn:Hin; [|done].
  intros [= <-]. by apply in_CC_LICENSE_TYPES_str.
Qed.

Lemma extract_license_type_member license_info :
  extract_license_type license_info ∈ CC_LICENSE_TYPES.
Proof.
  assert (UNKNOWN_CC ∈ CC_LICENSE_TYPES) as Hu by (vm_compute; set_solver).
  destruct license_info as [[|lic l]|]; simpl; try done.
  destruct (in_CC_LICENSE_TYPES _) eqn:Hin.
  - by apply in_CC_LICENSE_TYPES_str.
  - destruct (scan_license_info l) eqn:Hs; [|done].
    by eapply scan_license_info_member.
Qed.

Lemma extract_license_type_unrecognized (l : list descriptor) :
  Forall (λ x, ¬ recognized x) l → extract_license_type (Some l) = UNKNOWN_CC.
Proof.
  intros Hl. unfold extract_license_type.
  destruct (negb (nonempty l)); [done|].
  by rewrite scan_license_info_none.
Qed.

(** ** The guards of the record loop *)

Lemma guard_no_license j :
  guard j = SkipNoLicense ↔
  bj_license (get_bibjson j) = None ∨ bj_license (get_bibjson j) = Some [].
Proof.
  unfold guard.
  destruct (bj_license (get_bibjson j)) as [[|lic l]|]; simpl.
  - split; [by right | done].
  - destruct (String.eqb _ _); (split; [done | by intros [?|?]]).
  - split; [by left | done].
Qed.

Lemma guard_unknown j (l : list descriptor) :
  bj_license (get_bibjson j) = Some l → l ≠ [] →
  Forall (λ x, ¬ recognized x) l → guard j = SkipUnknown.
Proof.
  intros Hl Hne Hall. unfold guard. rewrite Hl.
  destruct l as [|lic l]; [done|].
  change (license_info_truthy (Some (lic :: l))) with true. simpl negb.
  cbv iota. rewrite (extract_license_type_unrecognized _ Hall).
  done.
Qed.

Lemma guard_counted_neq j license_type :
  guard j = Counted license_type → license_type ≠ UNKNOWN_CC.
Proof.
  unfold guard. destruct (negb _); [done|].
  destruct (String.eqb _ _) eqn:He; [done|].
  intros [= <-]. by apply String.eqb_neq.
Qed.

Lemma category_of_counted j license_type :
  category_of j = Some license_type ↔ guard j = Counted license_type.
Proof. unfold category_of. destruct (guard j); naive_solver. Qed.

(** ** One record *)

Lemma journal_body_guard j t :
  journal_body j t
  = match guard j with
    | SkipNoLicense | SkipUnknown => t
    | Counted license_type => accumulate license_type (get_bibjson j) t
    end.
Proof.
  unfold journal_body, guard.
  destruct (negb _); [done|]. by destruct (String.eqb _ _).
Qed.

Lemma journal_body_skip j t : category_of j = None → journal_body j t = t.
Proof.
  rewrite journal_body_guard. unfold category_of. by destruct (guard j).
Qed.

Lemma journal_body_counted j cat t :
  category_of j = Some cat → journal_body j t = accumulate cat (get_bibjson j) t.
Proof.
  rewrite journal_body_guard. unfold category_of.
  destruct (guard j); naive_solver.
Qed.

(** The subject loop adds one to the category's total per countable entry. *)
Lemma subject_loop_total license_type subjects sc cat :
  category_total (foldl (subject_body license_type) sc subjects) cat
  = category_total sc cat
    + (if decide (license_type = cat)
       then Z.of_nat (length (filter (λ s, countable_subject s = true) subjects))
       else 0).
Proof.
  revert sc. induction subjects as [|s subjects IH]; intros sc; simpl.
  { case_decide; lia. }
  rewrite IH. rewrite filter_cons.
  assert (category_total (subject_body license_type sc s) cat
          = category_total sc cat
            + (if decide (license_type = cat)
               then (if decide (countable_subject s = true) then 1 else 0)
               else 0)) as ->.
  { unfold subject_body, countable_subject. destruct s as [d|v].
    - destruct (truthy _ && truthy _); simpl.
      + case_decide as Hc; [subst|].
        * by rewrite category_total_incr_eq.
        * rewrite category_total_incr_ne; [lia | done].
      + case_decide; simpl; lia.
    - case_decide; simpl; lia. }
  repeat case_decide; simpl length; lia.
Qed.

Section one_record.
Variables (j : journal) (t : tables).

Local Ltac by_category Hc Hd :=
  destruct (category_of j) as [?c|] eqn:Hc;
  [ rewrite (journal_body_counted _ _ _ Hc); simpl
  | rewrite (journal_body_skip _ _ Hc) ];
  case_decide as Hd;
  unfold has_category, qualifies in Hd; rewrite Hc in Hd.

Lemma journal_body_license cat :
  counter_get (license_counts (journal_body j t)) cat
  = counter_get (license_counts t) cat + (if decide (has_category cat j) then 1 else 0).
Proof.
  by_category Hc Hd.
  - injection Hd as ->. apply counter_get_incr_eq.
  - rewrite counter_get_incr_ne; [lia | congruence].
  - done.
  - lia.
Qed.

Lemma journal_body_year cat :
  category_total (year_counts (journal_body j t)) cat
  = category_total (year_counts t) cat + (if decide (has_category cat j) then 1 else 0).
Proof.
  by_category Hc Hd.
  - injection Hd as ->. apply category_total_incr_eq.
  - rewrite category_total_incr_ne; [lia | congruence].
  - done.
  - lia.
Qed.

Lemma journal_body_subject cat :
  category_total (subject_counts (journal_body j t)) cat
  = category_total (subject_counts t) cat
    + (if decide (has_category cat j) then countable_subjects j else 0).
Proof.
  by_category Hc Hd.
  - injection Hd as ->. rewrite subject_loop_total.
    by rewrite decide_True.
  - rewrite subject_loop_total. rewrite decide_False; congruence.
  - done.
  - lia.
Qed.

Lemma journal_body_total :
  total_processed (journal_body j t)
  = total_processed t + (if decide (qualifies j) then 1 else 0).
Proof.
  by_category Hc Hd.
  - done.
  - by destruct Hd.
  - by destruct Hd as [? ?].
  - lia.
Qed.

Lemma journal_body_license_total :
  counter_total (license_counts (journal_body j t))
  = counter_total (license_counts t) + (if decide (qualifies j) then 1 else 0).
Proof.
  by_category Hc Hd.
  - apply counter_total_incr.
  - by destruct Hd.
  - by destruct Hd as [? ?].
  - lia.
Qed.

End one_record.

(** ** A list of records counted one after the other *)

Lemma count_category_cons cat j l :
  count_category cat (j :: l)
  = (if decide (has_category cat j) then 1 else 0) + count_category cat l.
Proof.
  unfold count_category. rewrite filter_cons.
  case_decide; simpl length; lia.
Qed.

Lemma count_all_license l t cat :
  counter_get (license_counts (count_all t l)) cat
  = counter_get (license_counts t) cat + count_category cat l.
Proof.
  revert t. induction l as [|j l IH]; intros t; simpl.
  { unfold count_category. simpl. lia. }
  rewrite IH, journal_body_license, count_category_cons. lia.
Qed.

Lemma count_all_year l t cat :
  category_total (year_counts (count_all t l)) cat
  = category_total (year_counts t) cat + count_category cat l.
Proof.
  revert t. induction l as [|j l IH]; intros t; simpl.
  { unfold count_category. simpl. lia. }
  rewrite IH, journal_body_year, count_category_cons. lia.
Qed.

Lemma count_all_subject l t cat :
  category_total (subject_counts (count_all t l)) cat
  = category_total (subject_counts t) cat + subject_entries cat l.
Proof.
  revert t. induction l as [|j l IH]; intros t; simpl.
  { lia. }
  rewrite IH, journal_body_subject. lia.
Qed.

Lemma count_all_total l t :
  total_processed (count_all t l)
  = total_processed t + Z.of_nat (length (filter qualifies l)).
Proof.
  revert t. induction l as [|j l IH]; intros t; simpl.
  { lia. }
  rewrite IH, journal_body_total, filter_cons.
  case_decide; simpl length; lia.
Qed.

Lemma count_all_license_total l t :
  counter_total (license_counts (count_all t l))
  = counter_total (license_counts t) + Z.of_nat (length (filter qualifies l)).
Proof.
  revert t. induction l as [|j l IH]; intros t; simpl.
  { lia. }
  rewrite IH, journal_body_license_total, filter_cons.
  case_decide; simpl length; lia.
Qed.

(** ** The record loop with its budget test *)

(** The record loop counts the qualifying records of the page until the
    budget that is left is used up. *)
Lemma for_journals_spec limit results t :
  for_journals limit results t
  = count_all t (take (Z.to_nat (limit - total_processed t))
                      (filter qualifies results)).
Proof.
  revert t. induction results as [|j rest IH]; intros t; simpl.
  { by rewrite filter_nil, take_nil. }
  destruct (Z.geb_spec (total_processed t) limit) as [Hge|Hlt].
  { replace (Z.to_nat (limit - total_processed t)) with 0%nat by lia. done. }
  rewrite IH, journal_body_total, filter_cons.
  case_decide as Hq.
  - replace (Z.to_nat (limit - total_processed t))
      with (S (Z.to_nat (limit - (total_processed t + 1)))) by lia.
    done.
  - rewrite Z.add_0_r. f_equal. apply journal_body_skip.
    unfold qualifies in Hq. by apply eq_None_not_Some.
Qed.

(** ** Pages *)

Lemma fetched_S session k :
  fetched session (S k) = fetched session k ++ results_of (session (S k)).
Proof.
  unfold fetched. rewrite seq_S, flat_map_app. simpl. by rewrite app_nil_r.
Qed.

Lemma rounds_S k : rounds (S k) = rounds k ++ [EvGet (S k); EvSleep].
Proof. unfold rounds. rewrite seq_S, flat_map_app. done. Qed.

Lemma filter_Forall_id {A} (P : A → Prop) `{!∀ x, Decision (P x)} (l : list A) :
  Forall P l → filter P l = l.
Proof.
  induction 1 as [|x l Hx _ IH]; [done|].
  rewrite filter_cons_True by done. by rewrite IH.
Qed.

Lemma processed_qualify session limit k :
  Forall qualifies (processed session limit k).
Proof.
  unfold processed. apply Forall_take, Forall_forall.
  intros j Hj. by apply list_elem_of_filter in Hj as [? _].
Qed.

Lemma processed_length session limit k :
  (length (processed session limit k) ≤ Z.to_nat limit)%nat.
Proof. unfold processed. rewrite length_take. lia. Qed.

Lemma tally_total session limit k :
  total_processed (tally (processed session limit k))
  = Z.of_nat (length (processed session limit k)).
Proof.
  unfold tally. rewrite count_all_total. simpl.
  by rewrite filter_Forall_id by apply processed_qualify.
Qed.

(** One page more: the record loop takes the tables of [k] pages to the
    tables of [k + 1] pages. *)
Lemma processed_step session limit k :
  for_journals limit (results_of (session (S k)))
    (tally (processed session limit k))
  = tally (processed session limit (S k)).
Proof.
  rewrite for_journals_spec, tally_total.
  unfold tally at 2. unfold processed at 3.
  rewrite fetched_S, filter_app, take_app, foldl_app.
  fold (processed session limit k). fold (tally (processed session limit k)).
  f_equal.
  set (A := filter qualifies (fetched session k)).
  set (B := filter qualifies (results_of (session (S k)))).
  destruct (decide (length A < Z.to_nat limit)%nat) as [Hlt|Hge].
  - unfold processed. fold A. rewrite (take_ge A) by lia. f_equal. lia.
  - unfold processed. fold A.
    replace (Z.to_nat limit - length A)%nat with 0%nat by lia.
    rewrite length_take.
    replace (Z.to_nat (limit - Z.of_nat (Z.to_nat limit `min` length A)))
      with 0%nat by lia.
    done.
Qed.

(** ** The page loop *)

Lemma at_head_init session limit : at_head session limit 0 init_state.
Proof.
  repeat split; try done.
  - unfold processed, fetched. simpl. by rewrite filter_nil, take_nil.
  - intros p Hp. lia.
Qed.

Lemma pages_nonempty_S session k results :
  pages_nonempty session k → session (S k) = Data results → results ≠ [] →
  pages_nonempty session (S k).
Proof.
  intros Hk Hs Hne p Hp.
  destruct (decide (p = S k)) as [->|Hp']; [by exists results|].
  apply Hk. lia.
Qed.

(** A complete round takes the head state of round [k] to that of round
    [k + 1]. *)
Lemma while_body_continue session limit k st results :
  at_head session limit k st →
  session (S k) = Data results → results ≠ [] →
  ∃ st', while_body session limit st = (Continue, st')
         ∧ at_head session limit (S k) st'.
Proof.
  intros (Hpage & Htab & Htr & Hne) Hs Hres.
  unfold while_body. rewrite Hpage, Hs.
  destruct results as [|j results]; [done|]. simpl negb. cbv iota.
  eexists. split; [done|].
  repeat split; simpl.
  - lia.
  - rewrite Htab. rewrite <- processed_step. by rewrite Hs.
  - rewrite Htr, rounds_S, <- app_assoc. done.
  - by eapply pages_nonempty_S.
Qed.

(** What the loop returns, and where it stands when the rounds run out. *)
Lemma while_loop_spec session limit fuel :
  ∀ k st, at_head session limit k st →
  match while_loop fuel session limit st with
  | Returned st' =>
      ∃ k' how, (k ≤ k' ≤ k + fuel)%nat ∧ at_exit session limit k' how st'
  | OutOfFuel st' =>
      at_head session limit (k + fuel) st'
      ∧ total_processed (st_tables st') < limit
  end.
Proof.
  induction fuel as [|fuel IH]; intros k st Hhead; simpl.
  - destruct (Z.ltb_spec (total_processed (st_tables st)) limit) as [Hlt|Hge].
    + by rewrite Nat.add_0_r.
    + destruct Hhead as (Hpage & Htab & Htr & Hne).
      exists k, BudgetReached. by repeat split; try lia.
  - destruct (Z.ltb_spec (total_processed (st_tables st)) limit) as [Hlt|Hge].
    + destruct (session (S k)) as [|results] eqn:Hs.
      { destruct Hhead as (Hpage & Htab & Htr & Hne).
        unfold while_body. rewrite Hpage, Hs.
        exists k, RequestFailed. repeat split; simpl; try done; try lia.
        by rewrite Htr. }
      destruct results as [|j results].
      { destruct Hhead as (Hpage & Htab & Htr & Hne).
        unfold while_body. rewrite Hpage, Hs. simpl.
        exists k, EmptyPage. repeat split; simpl; try done; try lia.
        by rewrite Htr. }
      destruct (while_body_continue _ _ _ _ _ Hhead Hs) as (st' & -> & Hhead');
        [done|].
      specialize (IH (S k) st' Hhead').
      destruct (while_loop fuel session limit st') as [st''|st''].
      * destruct IH as (k' & how & Hk' & Hexit).
        exists k', how. split; [lia | done].
      * by replace (k + S fuel)%nat with (S k + fuel)%nat by lia.
    + destruct Hhead as (Hpage & Htab & Htr & Hne).
      exists k, BudgetReached. by repeat split; try lia.
Qed.

(** More rounds than needed change nothing. *)
Lemma while_loop_more session limit fuel n :
  ∀ st, while_loop (fuel + n) session limit st
        = match while_loop fuel session limit st with
          | Returned st' => Returned st'
          | OutOfFuel st' => while_loop n session limit st'
          end.
Proof.
  induction fuel as [|fuel IH]; intros st; simpl.
  - destruct (Z.ltb_spec (total_processed (st_tables st)) limit) as [Hlt|Hge].
    + done.
    + destruct n; simpl; by rewrite (proj2 (Z.ltb_ge _ _) Hge).
  - destruct (total_processed (st_tables st) <? limit); [|done].
    destruct (while_body session limit st) as [[|] st']; [apply IH | done].
Qed.

Lemma run_loop_spec fuel session args st :
  run_loop fuel session args = Some st →
  ∃ k how, (k ≤ fuel)%nat ∧ at_exit session (limit args) k how st.
Proof.
  unfold run_loop.
  pose proof (while_loop_spec session (limit args) fuel 0 init_state
                (at_head_init _ _)) as H.
  destruct (while_loop _ _ _ _) as [st'|st']; [|done].
  intros [= <-]. destruct H as (k & how & Hk & Hexit).
  exists k, how. split; [lia | done].
Qed.

(** The loop returns as soon as some page is empty or fails. *)
Lemma run_loop_returns session args p :
  session (S p) = RequestException ∨ session (S p) = Data [] →
  ∀ fuel, (p < fuel)%nat → is_Some (run_loop fuel session args).
Proof.
  intros Hend fuel Hfuel. unfold run_loop.
  replace fuel with (S p + (fuel - S p))%nat by lia.
  rewrite while_loop_more.
  pose proof (while_loop_spec session (limit args) (S p) 0 init_state
                (at_head_init _ _)) as H.
  destruct (while_loop (S p) _ _ _) as [st'|st']; [done|].
  destruct H as [(_ & _ & _ & Hne) _].
  destruct (Hne (S p)) as (results & Hs & Hres); [lia|].
  destruct Hend as [Hend|Hend]; congruence.
Qed.

(** A run over three pages with a budget of 5: four records are counted,
    the fourth page is empty and ends the loop. *)
Example three_pages_budget_5 :
  ∃ st, run_loop 4 session_three_pages (args_of 5) = Some st
        ∧ counter_get (license_counts (st_tables st)) "CC BY" = 3
        ∧ counter_get (license_counts (st_tables st)) "CC0" = 1
        ∧ counter_get (license_counts (st_tables st)) UNKNOWN_CC = 0
        ∧ total_processed (st_tables st) = 4
        ∧ st_trace st
          = [EvGet 1; EvSleep; EvGet 2; EvSleep; EvGet 3; EvSleep; EvGet 4].
Proof. eexists. repeat split; vm_compute; reflexivity. Qed.

(** With a budget of 3 the same run stops inside page 2. *)
Example three_pages_budget_3 :
  ∃ st, run_loop 2 session_three_pages (args_of 3) = Some st
        ∧ counter_get (license_counts (st_tables st)) "CC BY" = 2
        ∧ counter_get (license_counts (st_tables st)) "CC0" = 1
        ∧ total_processed (st_tables st) = 3
        ∧ st_trace st = [EvGet 1; EvSleep; EvGet 2; EvSleep].
Proof. eexists. repeat split; vm_compute; reflexivity. Qed.

Lemma for_journals_exhausted limit results t :
  limit ≤ total_processed t → for_journals limit results t = t.
Proof.
  intros Hge. destruct results as [|j rest]; simpl; [done|].
  by rewrite (proj2 (Z.geb_le _ _) Hge).
Qed.

(** A record that the body skips can be removed from the page. *)
Lemma for_journals_skip limit j rest t :
  journal_body j t = t →
  for_journals limit (j :: rest) t = for_journals limit rest t.
Proof.
  intros Hskip. simpl. rewrite Hskip.
  destruct (Z.geb_spec (total_processed t) limit) as [Hge|Hlt]; [|done].
  by rewrite for_journals_exhausted.
Qed.

(** * The claims *)

(** C7.  A record whose license information is absent or empty is skipped:
    the body of the record loop returns the four tables and the processed
    total unchanged, and the record loop behaves as if the record were not
    on the page. *)
Theorem no_license_record_skipped (j : journal) (t : tables) :
  bj_license (get_bibjson j) = None ∨ bj_license (get_bibjson j) = Some [] →
  journal_body j t = t
  ∧ ∀ limit rest, for_journals limit (j :: rest) t = for_journals limit rest t.
Proof.
  intros Hlic. apply guard_no_license in Hlic.
  assert (journal_body j t = t) as Hskip.
  { rewrite journal_body_guard. by rewrite Hlic. }
  split; [done|]. intros limit rest. by apply for_journals_skip.
Qed.

Lemma no_license_record_skipped_witness :
  journal_body journal_no_license (tally [journal_cc_by])
  = tally [journal_cc_by]
  ∧ ∀ limit rest,
      for_journals limit (journal_no_license :: rest) (tally [journal_cc_by])
      = for_journals limit rest (tally [journal_cc_by]).
Proof.
  apply (no_license_record_skipped journal_no_license (tally [journal_cc_by])).
  right. reflexivity.
Defined.

(** C1 as stated fails: [journal_other_license] has a non-empty license
    list with no recognized type, the classifier returns the catch-all
    label, and the catch-all counter is not incremented; a run over a page
    that holds only this record returns empty tables and a total of 0. *)
Lemma unrecognized_license_not_counted :
  bj_license (get_bibjson journal_other_license)
    = Some [license_of "Publisher's own license"]
  ∧ Forall (λ lic, ¬ recognized lic) [license_of "Publisher's own license"]
  ∧ extract_license_type (bj_license (get_bibjson journal_other_license))
    = UNKNOWN_CC
  ∧ counter_get
      (license_counts (journal_body journal_other_license empty_tables))
      UNKNOWN_CC
    ≠ counter_get (license_counts empty_tables) UNKNOWN_CC + 1
  ∧ process_journals 2 session_other_license (args_of 1000) = Some empty_tables.
Proof.
  split; [reflexivity|]. split.
  { apply Forall_cons. split; [|apply Forall_nil_2]. vm_compute. discriminate. }
  split; [reflexivity|]. split; [vm_compute; discriminate|].
  vm_compute. reflexivity.
Qed.

(** C1, amended.  For a record whose license list is non-empty but holds no
    recognized type, the classifier returns the catch-all label and the loop
    then skips the record through its second guard: no table and not the
    processed total changes. *)
Theorem unrecognized_license_record_skipped (j : journal)
    (l : list descriptor) (t : tables) :
  bj_license (get_bibjson j) = Some l → l ≠ [] →
  Forall (λ lic, ¬ recognized lic) l →
  extract_license_type (Some l) = UNKNOWN_CC
  ∧ guard j = SkipUnknown
  ∧ journal_body j t = t
  ∧ ∀ limit rest, for_journals limit (j :: rest) t = for_journals limit rest t.
Proof.
  intros Hl Hne Hall.
  pose proof (guard_unknown j l Hl Hne Hall) as Hg.
  assert (journal_body j t = t) as Hskip.
  { rewrite journal_body_guard. by rewrite Hg. }
  split; [by apply extract_license_type_unrecognized|].
  split; [done|]. split; [done|].
  intros limit rest. by apply for_journals_skip.
Qed.

Lemma unrecognized_license_record_skipped_witness :
  extract_license_type (Some [license_of "Publisher's own license"]) = UNKNOWN_CC
  ∧ guard journal_other_license = SkipUnknown
  ∧ journal_body journal_other_license empty_tables = empty_tables
  ∧ ∀ limit rest,
      for_journals limit (journal_other_license :: rest) empty_tables
      = for_journals limit rest empty_tables.
Proof.
  apply (unrecognized_license_record_skipped journal_other_license
           [license_of "Publisher's own license"] empty_tables).
  - reflexivity.
  - discriminate.
  - apply Forall_cons. split; [|apply Forall_nil_2]. vm_compute. discriminate.
Defined.

(** C8.  If some descriptor of the license list has a recognized type, the
    classifier returns the type of the first such descriptor: the list
    splits into descriptors that are not recognized, a recognized one whose
    ["type"] is the returned string, and the rest. *)
Theorem first_recognized_type_returned (l : list descriptor) :
  Exists recognized l →
  ∃ pre lic post,
    l = pre ++ lic :: post
    ∧ Forall (λ x, ¬ recognized x) pre
    ∧ recognized lic
    ∧ get lic "type" (VStr "") = VStr (extract_license_type (Some l)).
Proof.
  intros Hex.
  assert (∃ pre lic post, l = pre ++ lic :: post
            ∧ Forall (λ x, ¬ recognized x) pre ∧ recognized lic)
    as (pre & lic & post & -> & Hpre & Hlic).
  { induction l as [|x l IH]; [by inversion Hex|].
    destruct (decide (recognized x)) as [Hx|Hx].
    - exists [], x, l. by repeat split.
    - inversion Hex as [? ? Hx'|? ? Hl]; subst; [done|].
      destruct (IH Hl) as (pre & lic & post & -> & Hpre & Hlic).
      exists (x :: pre), lic, post. repeat split; [|done]. by constructor. }
  exists pre, lic, post. repeat split; try done.
  unfold extract_license_type.
  replace (nonempty (pre ++ lic :: post)) with true by (by destruct pre).
  simpl negb. cbv iota.
  rewrite (scan_license_info_first pre post lic Hpre Hlic).
  by apply in_CC_LICENSE_TYPES_str.
Qed.

Lemma first_recognized_type_returned_witness :
  ∃ pre lic post,
    [license_of "Publisher's own license"; license_of "CC BY-NC"; license_of "CC0"]
    = pre ++ lic :: post
    ∧ Forall (λ x, ¬ recognized x) pre
    ∧ recognized lic
    ∧ get lic "type" (VStr "")
      = VStr (extract_license_type
                (Some [license_of "Publisher's own license";
                       license_of "CC BY-NC"; license_of "CC0"])).
Proof.
  apply (first_recognized_type_returned
           [license_of "Publisher's own license"; license_of "CC BY-NC";
            license_of "CC0"]).
  apply Exists_cons_tl, Exists_cons_hd. reflexivity.
Defined.

(** C9.  The classifier returns one of the fixed labels on every input; on
    [None] and on the empty list it returns the catch-all label, which is
    also what it returns on a list with no recognized type, so its result
    does not tell absent license data from unrecognized license data.  In
    the loop the two cases are told apart by the emptiness test in front of
    the call: that guard fires exactly on absent or empty license data, and
    unrecognized license data passes it and reaches the second guard. *)
Theorem classifier_total_with_catch_all :
  (∀ license_info, extract_license_type license_info ∈ CC_LICENSE_TYPES)
  ∧ extract_license_type None = UNKNOWN_CC
  ∧ extract_license_type (Some []) = UNKNOWN_CC
  ∧ (∀ l : list descriptor,
       Forall (λ lic, ¬ recognized lic) l →
       extract_license_type (Some l) = extract_license_type None)
  ∧ (∀ j, guard j = SkipNoLicense ↔
          bj_license (get_bibjson j) = None
          ∨ bj_license (get_bibjson j) = Some [])
  ∧ (∀ j (l : list descriptor),
       bj_license (get_bibjson j) = Some l → l ≠ [] →
       Forall (λ lic, ¬ recognized lic) l →
       guard j = SkipUnknown).
Proof.
  split; [apply extract_license_type_member|].
  split; [reflexivity|]. split; [reflexivity|].
  split; [intros l Hl; by rewrite extract_license_type_unrecognized|].
  split; [apply guard_no_license | apply guard_unknown].
Qed.




(** ** Runs *)

Lemma at_exit_tables session limit k how st :
  at_exit session limit k how st →
  st_page st = S k ∧ st_tables st = tally (processed session limit k).
Proof. by intros (? & ? & _). Qed.

(** The tables at any point where [while_loop] stops, returned or not. *)
Lemma while_loop_tables session limit fuel :
  ∃ k, (k ≤ fuel)%nat
       ∧ st_tables (result_state (while_loop fuel session limit init_state))
         = tally (processed session limit k).
Proof.
  pose proof (while_loop_spec session limit fuel 0 init_state
                (at_head_init _ _)) as H.
  destruct (while_loop _ _ _ _) as [st|st]; simpl.
  - destruct H as (k & how & Hk & Hexit). exists k. split; [lia|].
    by apply at_exit_tables in Hexit as [_ ?].
  - destruct H as [(_ & Htab & _) _]. by exists fuel.
Qed.

Lemma tally_license_total session limit k :
  counter_total (license_counts (tally (processed session limit k)))
  = total_processed (tally (processed session limit k)).
Proof.
  unfold tally. rewrite count_all_license_total, count_all_total. simpl.
  by rewrite counter_total_empty.
Qed.

(** C5.  With a budget [N ≥ 0] the processed total never exceeds [N]: this
    holds for the state with which the loop stops after any number of
    rounds, whether it has returned or not, and so for the total that
    [process_journals] returns; that total is the number of records counted
    in the license table. *)
Theorem processed_total_within_budget (session : nat → response)
    (args : args_t) (fuel : nat) :
  0 ≤ limit args →
  (let t := st_tables (result_state
                         (while_loop fuel session (limit args) init_state)) in
   total_processed t ≤ limit args
   ∧ counter_total (license_counts t) = total_processed t)
  ∧ ∀ t, process_journals fuel session args = Some t →
         total_processed t ≤ limit args
         ∧ counter_total (license_counts t) = total_processed t.
Proof.
  intros Hlimit.
  assert (let t := st_tables (result_state
                      (while_loop fuel session (limit args) init_state)) in
          total_processed t ≤ limit args
          ∧ counter_total (license_counts t) = total_processed t) as Hall.
  { destruct (while_loop_tables session (limit args) fuel) as (k & _ & ->).
    simpl. split; [|apply tally_license_total].
    rewrite tally_total.
    pose proof (processed_length session (limit args) k). lia. }
  split; [done|].
  intros t. unfold process_journals, run_loop.
  destruct (while_loop _ _ _ _) as [st|st]; simpl; [|done].
  intros [= <-]. apply Hall.
Qed.

Lemma processed_total_within_budget_witness :
  (let t := st_tables (result_state
                         (while_loop 3 session_failing 1 init_state)) in
   total_processed t ≤ 1
   ∧ counter_total (license_counts t) = total_processed t)
  ∧ ∀ t, process_journals 3 session_failing (args_of 1) = Some t →
         total_processed t ≤ 1
         ∧ counter_total (license_counts t) = total_processed t.
Proof.
  apply (processed_total_within_budget session_failing (args_of 1) 3).
  simpl. lia.
Defined.

Lemma tally_year_license (l : list journal) cat :
  category_total (year_counts (tally l)) cat = count_category cat l
  ∧ counter_get (license_counts (tally l)) cat = count_category cat l.
Proof.
  unfold tally. rewrite count_all_year, count_all_license. simpl.
  rewrite category_total_empty. unfold counter_get. rewrite lookup_empty.
  simpl. lia.
Qed.

Lemma run_loop_process_journals fuel session args st :
  run_loop fuel session args = Some st →
  process_journals fuel session args = Some (st_tables st).
Proof. unfold process_journals. by intros ->. Qed.

Lemma scan_license_info_find (l : list descriptor) :
  scan_license_info l
  = (λ found, str (get found.2 "type" (VStr ""))) <$> list_find recognized l.
Proof.
  induction l as [|lic l IH]; [done|]. simpl.
  destruct (decide (recognized lic)) as [Hlic|Hlic].
  - unfold recognized in Hlic. by rewrite Hlic.
  - unfold recognized in Hlic. apply not_true_is_false in Hlic.
    rewrite Hlic, IH. by destruct (list_find recognized l) as [[i x]|].
Qed.

Lemma extract_license_type_find lic (l : list descriptor) :
  extract_license_type (Some (lic :: l))
  = match list_find recognized (lic :: l) with
    | Some (_, x) => str (get x "type" (VStr ""))
    | None => UNKNOWN_CC
    end.
Proof.
  unfold extract_license_type.
  change (negb (nonempty (lic :: l))) with false. cbv iota.
  rewrite scan_license_info_find.
  by destruct (list_find recognized (lic :: l)) as [[i x]|].
Qed.

(** The two guards of the loop count a record under [cat] exactly when the
    spec classifies it with [cat] and [cat] is not the catch-all. *)
Lemma category_of_spec_classify j cat :
  category_of j = Some cat ↔ spec_classify j = Some cat ∧ cat ≠ UNKNOWN_CC.
Proof.
  unfold category_of, guard, spec_classify.
  destruct (bj_license (get_bibjson j)) as [[|lic l]|].
  - simpl. split; [done | by intros []].
  - change (negb (license_info_truthy (Some (lic :: l)))) with false.
    cbv iota. rewrite extract_license_type_find.
    destruct (list_find recognized (lic :: l)) as [[i x]|].
    + destruct (String.eqb _ UNKNOWN_CC) eqn:He.
      * apply String.eqb_eq in He. split; [done|]. by intros [[= <-] Hne].
      * apply String.eqb_neq in He. split.
        -- by intros [= <-].
        -- by intros [[= <-] _].
    + rewrite String.eqb_refl. split; [done|]. by intros [[= <-] Hne].
  - simpl. split; [done | by intros []].
Qed.

Lemma qualifies_spec_counted j : qualifies j ↔ spec_counted j.
Proof.
  unfold qualifies, spec_counted. split.
  - intros [cat Hcat]. exists cat. by apply category_of_spec_classify.
  - intros (cat & Hcat). exists cat. by apply category_of_spec_classify.
Qed.

Lemma processed_spec_counted session limit k :
  processed session limit k
  = take (Z.to_nat limit) (filter spec_counted (fetched session k)).
Proof.
  unfold processed. f_equal. apply list_filter_iff, qualifies_spec_counted.
Qed.

Lemma count_category_spec_classify cat (l : list journal) :
  Forall qualifies l →
  count_category cat l
  = Z.of_nat (length (filter (λ j, spec_classify j = Some cat) l)).
Proof.
  unfold count_category. induction 1 as [|j l Hj _ IH]; [done|].
  rewrite !filter_cons.
  destruct Hj as [c Hc].
  pose proof (proj1 (category_of_spec_classify j c) Hc) as [Hs Hne].
  destruct (decide (c = cat)) as [->|Hcat].
  - rewrite decide_True by done. rewrite decide_True by done.
    simpl length. lia.
  - rewrite decide_False by (unfold has_category; congruence).
    rewrite decide_False by congruence. done.
Qed.

Lemma count_category_catch_all (l : list journal) :
  count_category UNKNOWN_CC l = 0.
Proof.
  unfold count_category. induction l as [|j l IH]; [done|].
  rewrite filter_cons_False; [done|].
  unfold has_category. intros Hc. apply category_of_counted in Hc.
  by apply guard_counted_neq in Hc.
Qed.

(** C4 as stated fails for the catch-all category: [journal_other_license]
    is a qualifying record of the spec, classified with the catch-all
    category, and the run over the one page that holds it returns a license
    count of 0 and a year total of 0 for that category. *)
Lemma catch_all_record_in_no_year_bucket :
  spec_classify journal_other_license = Some UNKNOWN_CC
  ∧ fetched session_other_license 1 = [journal_other_license]
  ∧ Z.of_nat (length (filter (λ j, spec_classify j = Some UNKNOWN_CC)
                        (fetched session_other_license 1))) = 1
  ∧ ∃ t, process_journals 2 session_other_license (args_of 1000) = Some t
         ∧ counter_get (license_counts t) UNKNOWN_CC = 0
         ∧ category_total (year_counts t) UNKNOWN_CC = 0.
Proof.
  split; [vm_compute; reflexivity|]. split; [reflexivity|].
  split; [vm_compute; reflexivity|].
  eexists. split; [vm_compute; reflexivity|].
  split; vm_compute; reflexivity.
Qed.

(** C4, amended.  At the end of a run, for every category the year buckets
    of the category add up to its license count, and both are the number of
    counted records classified with the category.  The counted records are
    the first [limit] records of the pages read that the spec classifies
    with a category other than the catch-all; records classified with the
    catch-all are skipped, so for the catch-all category the license count
    and the year total are 0.  Every counted record increments one year
    bucket of its category. *)
Theorem year_total_is_license_count (fuel : nat) (session : nat → response)
    (args : args_t) (st : state) (cat : string) :
  run_loop fuel session args = Some st →
  let t := st_tables st in
  let counted := processed session (limit args) (pred (st_page st)) in
  process_journals fuel session args = Some t
  ∧ counted
    = take (Z.to_nat (limit args))
        (filter spec_counted (fetched session (pred (st_page st))))
  ∧ category_total (year_counts t) cat = counter_get (license_counts t) cat
  ∧ counter_get (license_counts t) cat = count_category cat counted
  ∧ counter_get (license_counts t) cat
    = Z.of_nat (length (filter (λ j, spec_classify j = Some cat) counted))
  ∧ (cat = UNKNOWN_CC →
     counter_get (license_counts t) cat = 0
     ∧ category_total (year_counts t) cat = 0)
  ∧ ∀ j c t0,
      guard j = Counted c →
      ∃ bucket,
        year_counts (journal_body j t0) = nested_incr c bucket (year_counts t0)
        ∧ category_total (year_counts (journal_body j t0)) c
          = category_total (year_counts t0) c + 1.
Proof.
  intros Hrun. simpl.
  split; [by apply run_loop_process_journals|].
  split; [apply processed_spec_counted|].
  destruct (run_loop_spec _ _ _ _ Hrun) as (k & how & _ & Hexit).
  apply at_exit_tables in Hexit as [-> ->]. simpl pred.
  destruct (tally_year_license (processed session (limit args) k) cat)
    as [Hy Hl].
  split; [congruence|]. split; [done|].
  split.
  { rewrite Hl. apply count_category_spec_classify, processed_qualify. }
  split.
  { intros ->. rewrite Hy, Hl. by rewrite count_category_catch_all. }
  intros j c t0 Hg.
  exists (year_key (default VNone (bj_oa_start (get_bibjson j)))).
  rewrite journal_body_guard, Hg. simpl.
  split; [done | apply category_total_incr_eq].
Qed.

Lemma year_total_is_license_count_witness :
  let st := result_state (while_loop 4 session_three_pages 5 init_state) in
  let t := st_tables st in
  let counted := processed session_three_pages 5 (pred (st_page st)) in
  process_journals 4 session_three_pages (args_of 5) = Some t
  ∧ counted
    = take (Z.to_nat (limit (args_of 5)))
        (filter spec_counted (fetched session_three_pages (pred (st_page st))))
  ∧ category_total (year_counts t) "CC BY" = counter_get (license_counts t) "CC BY"
  ∧ counter_get (license_counts t) "CC BY" = count_category "CC BY" counted
  ∧ counter_get (license_counts t) "CC BY"
    = Z.of_nat (length (filter (λ j, spec_classify j = Some "CC BY") counted))
  ∧ ("CC BY" = UNKNOWN_CC →
     counter_get (license_counts t) "CC BY" = 0
     ∧ category_total (year_counts t) "CC BY" = 0)
  ∧ ∀ j c t0,
      guard j = Counted c →
      ∃ bucket,
        year_counts (journal_body j t0) = nested_incr c bucket (year_counts t0)
        ∧ category_total (year_counts (journal_body j t0)) c
          = category_total (year_counts t0) c + 1.
Proof.
  apply (year_total_is_license_count 4 session_three_pages (args_of 5)
           (result_state (while_loop 4 session_three_pages 5 init_state))
           "CC BY").
  vm_compute. reflexivity.
Defined.

(** C2 as stated fails: one CC BY record with two subject entries gives a
    subject total of 2 against a license count of 1. *)
Lemma subject_total_exceeds_license_count :
  ∃ t, process_journals 2 session_one_page (args_of 1000) = Some t
       ∧ counter_get (license_counts t) "CC BY" = 1
       ∧ category_total (subject_counts t) "CC BY" = 2
       ∧ ¬ (category_total (subject_counts t) "CC BY"
            ≤ counter_get (license_counts t) "CC BY").
Proof.
  eexists. split; [vm_compute; reflexivity|].
  split; [vm_compute; reflexivity|]. split; [vm_compute; reflexivity|].
  vm_compute. intros H. by apply H.
Qed.

Lemma subject_entries_bound (m : Z) cat (l : list journal) :
  Forall (λ j, has_category cat j → countable_subjects j ≤ m) l →
  subject_entries cat l ≤ m * count_category cat l.
Proof.
  induction 1 as [|j l Hj _ IH]; simpl.
  { unfold count_category. simpl. lia. }
  rewrite count_category_cons, Z.mul_add_distr_l.
  case_decide as Hcat; [specialize (Hj Hcat)|]; lia.
Qed.

(** C2, amended.  At the end of a run the subject total of a category is the
    number of countable subject entries (a dict with a truthy code and a
    truthy term) on the records counted under the category; it is at most
    [m] times the license count when no record counted under the category
    has more than [m] countable subject entries, and hence at most the
    license count when none of them has more than one. *)
Theorem subject_total_bounded (fuel : nat) (session : nat → response)
    (args : args_t) (st : state) (cat : string) (m : Z) :
  run_loop fuel session args = Some st →
  (∀ j, j ∈ processed session (limit args) (pred (st_page st)) →
        has_category cat j → countable_subjects j ≤ m) →
  let t := st_tables st in
  let counted := processed session (limit args) (pred (st_page st)) in
  process_journals fuel session args = Some t
  ∧ category_total (subject_counts t) cat = subject_entries cat counted
  ∧ category_total (subject_counts t) cat
    ≤ m * counter_get (license_counts t) cat
  ∧ (m ≤ 1 →
     category_total (subject_counts t) cat
     ≤ counter_get (license_counts t) cat).
Proof.
  intros Hrun Hm. simpl.
  split; [by apply run_loop_process_journals|].
  destruct (run_loop_spec _ _ _ _ Hrun) as (k & how & _ & Hexit).
  apply at_exit_tables in Hexit as [Hpage Htab].
  rewrite Hpage in Hm |- *. simpl pred in *. rewrite Htab.
  destruct (tally_year_license (processed session (limit args) k) cat)
    as [_ ->].
  assert (category_total
            (subject_counts (tally (processed session (limit args) k))) cat
          = subject_entries cat (processed session (limit args) k)) as ->.
  { unfold tally. rewrite count_all_subject. simpl.
    rewrite category_total_empty. lia. }
  assert (subject_entries cat (processed session (limit args) k)
          ≤ m * count_category cat (processed session (limit args) k))
    as Hbound.
  { apply subject_entries_bound, Forall_forall. exact Hm. }
  split; [done|]. split; [done|].
  intros Hone.
  assert (0 ≤ count_category cat (processed session (limit args) k))
    by (unfold count_category; lia).
  nia.
Qed.

Lemma subject_total_bounded_witness :
  let st := result_state (while_loop 2 session_one_page 1000 init_state) in
  let t := st_tables st in
  let counted := processed session_one_page 1000 (pred (st_page st)) in
  process_journals 2 session_one_page (args_of 1000) = Some t
  ∧ category_total (subject_counts t) "CC BY" = subject_entries "CC BY" counted
  ∧ category_total (subject_counts t) "CC BY"
    ≤ 2 * counter_get (license_counts t) "CC BY"
  ∧ (2 ≤ 1 →
     category_total (subject_counts t) "CC BY"
     ≤ counter_get (license_counts t) "CC BY").
Proof.
  apply (subject_total_bounded 2 session_one_page (args_of 1000)
           (result_state (while_loop 2 session_one_page 1000 init_state))
           "CC BY" 2).
  - vm_compute. reflexivity.
  - intros j Hj _.
    assert (j = journal_cc_by) as ->.
    { assert (processed session_one_page (limit (args_of 1000))
                (pred (st_page
                   (result_state (while_loop 2 session_one_page 1000 init_state))))
              = [journal_cc_by]) as Hp by (vm_compute; reflexivity).
      rewrite Hp in Hj. by apply list_elem_of_singleton in Hj. }
    vm_compute. discriminate.
Defined.

(** C3 as stated fails: with a budget of 1 the loop ends after page 1 by
    reaching the budget, and the delay is the last thing it does. *)
Lemma sleep_after_terminal_page :
  ∃ st, run_loop 1 session_one_page (args_of 1) = Some st
        ∧ limit (args_of 1) ≤ total_processed (st_tables st)
        ∧ st_trace st = [EvGet 1; EvSleep]
        ∧ last (st_trace st) = Some EvSleep.
Proof.
  eexists. split; [vm_compute; reflexivity|].
  split; [vm_compute; discriminate|]. split; reflexivity.
Qed.

(** C3, amended.  A run that returns has read some [k] non-empty pages and
    has slept once after each of them, the last one included when the loop
    ends by reaching the budget; when the loop ends on an empty page or on a
    failed request, that request is the last event and no delay follows
    it. *)
Theorem sleep_after_every_processed_page (fuel : nat)
    (session : nat → response) (args : args_t) (st : state) :
  run_loop fuel session args = Some st →
  ∃ k,
    pages_nonempty session k
    ∧ ((limit args ≤ total_processed (st_tables st)
        ∧ st_trace st = rounds k)
       ∨ (total_processed (st_tables st) < limit args
          ∧ (session (S k) = RequestException ∨ session (S k) = Data [])
          ∧ st_trace st = rounds k ++ [EvGet (S k)])).
Proof.
  intros Hrun.
  destruct (run_loop_spec _ _ _ _ Hrun) as (k & how & _ & Hexit).
  destruct Hexit as (_ & _ & Hne & Hhow).
  exists k. split; [done|].
  destruct how.
  - by left.
  - right. destruct Hhow as (? & ? & ?). by eauto.
  - right. destruct Hhow as (? & ? & ?). by eauto.
Qed.

Lemma sleep_after_every_processed_page_witness :
  ∃ k,
    pages_nonempty session_failing k
    ∧ ((limit (args_of 1000)
        ≤ total_processed
            (st_tables (result_state (while_loop 2 session_failing 1000 init_state)))
        ∧ st_trace (result_state (while_loop 2 session_failing 1000 init_state))
          = rounds k)
       ∨ (total_processed
            (st_tables (result_state (while_loop 2 session_failing 1000 init_state)))
          < limit (args_of 1000)
          ∧ (session_failing (S k) = RequestException
             ∨ session_failing (S k) = Data [])
          ∧ st_trace (result_state (while_loop 2 session_failing 1000 init_state))
            = rounds k ++ [EvGet (S k)])).
Proof.
  apply (sleep_after_every_processed_page 2 session_failing (args_of 1000)
           (result_state (while_loop 2 session_failing 1000 init_state))).
  vm_compute. reflexivity.
Defined.

Lemma elem_of_rounds k e :
  e ∈ rounds k → e = EvSleep ∨ ∃ p, e = EvGet p ∧ (1 ≤ p ≤ k)%nat.
Proof.
  induction k as [|k IH].
  - unfold rounds. simpl. by intros ?%elem_of_nil.
  - rewrite rounds_S, elem_of_app. intros [He|He].
    + destruct (IH He) as [->|(p & -> & Hp)]; [by left|].
      right. exists p. split; [done | lia].
    + apply elem_of_cons in He as [->|He].
      * right. exists (S k). split; [done | lia].
      * apply list_elem_of_singleton in He as ->. by left.
Qed.

(** C6.  Suppose the loop is at its head after [k] rounds with state [st_k]
    and the request for the next page fails.  Then with any larger number
    of rounds the loop returns: [process_journals] returns the tables and
    the processed total of [st_k], which are those of pages [1 .. k]; the
    failed page was requested once, as the last event of the run; and the
    provenance record carries the processed total of [st_k]. *)
Theorem request_failure_keeps_partial_results (session : nat → response)
    (args : args_t) (k : nat) (st_k : state) (fuel : nat) :
  while_loop k session (limit args) init_state = OutOfFuel st_k →
  session (st_page st_k) = RequestException →
  (k < fuel)%nat →
  ∃ st,
    run_loop fuel session args = Some st
    ∧ st_tables st = st_tables st_k
    ∧ st_tables st_k = tally (processed session (limit args) k)
    ∧ process_journals fuel session args = Some (st_tables st_k)
    ∧ st_trace st = st_trace st_k ++ [EvGet (st_page st_k)]
    ∧ (EvGet (st_page st_k) ∉ st_trace st_k)
    ∧ ∃ prov,
        query_doaj fuel session args = Some prov
        ∧ prov_total_processed prov = total_processed (st_tables st_k)
        ∧ total_journals_fetched prov = total_processed (st_tables st_k).
Proof.
  intros Hk Hfail Hfuel.
  pose proof (while_loop_spec session (limit args) k 0 init_state
                (at_head_init _ _)) as Hspec.
  rewrite Hk in Hspec. simpl in Hspec.
  destruct Hspec as [(Hpage & Htab & Htr & Hne) Hlt].
  assert (run_loop fuel session args
          = Some {| st_tables := st_tables st_k; st_page := st_page st_k;
                    st_trace := st_trace st_k ++ [EvGet (st_page st_k)] |})
    as Hrun.
  { unfold run_loop.
    replace fuel with (k + S (fuel - S k))%nat by lia.
    rewrite while_loop_more, Hk. simpl.
    rewrite (proj2 (Z.ltb_lt _ _) Hlt).
    unfold while_body. by rewrite Hfail. }
  eexists. split; [exact Hrun|]. simpl.
  split; [done|]. split; [done|].
  pose proof (run_loop_process_journals _ _ _ _ Hrun) as Hproc.
  simpl in Hproc. split; [done|]. split; [done|].
  split.
  { rewrite Htr, Hpage. intros He.
    apply elem_of_rounds in He as [He|(p & [= <-] & Hp)]; [done | lia]. }
  unfold query_doaj. rewrite Hproc. by eexists.
Qed.

Lemma request_failure_keeps_partial_results_witness :
  let st_1 := result_state (while_loop 1 session_failing 1000 init_state) in
  ∃ st,
    run_loop 5 session_failing (args_of 1000) = Some st
    ∧ st_tables st = st_tables st_1
    ∧ st_tables st_1 = tally (processed session_failing 1000 1)
    ∧ process_journals 5 session_failing (args_of 1000) = Some (st_tables st_1)
    ∧ st_trace st = st_trace st_1 ++ [EvGet (st_page st_1)]
    ∧ (EvGet (st_page st_1) ∉ st_trace st_1)
    ∧ ∃ prov,
        query_doaj 5 session_failing (args_of 1000) = Some prov
        ∧ prov_total_processed prov = total_processed (st_tables st_1)
        ∧ total_journals_fetched prov = total_processed (st_tables st_1).
Proof.
  apply (request_failure_keeps_partial_results session_failing (args_of 1000) 1
           (result_state (while_loop 1 session_failing 1000 init_state)) 5).
  - vm_compute. reflexivity.
  - reflexivity.
  - lia.
Defined.

(** * Further properties of the fetch loop *)

(** ** Which records are counted *)

Lemma scan_license_info_Some (l : list descriptor) s :
  scan_license_info l = Some s →
  ∃ pre lic post,
    l = pre ++ lic :: post
    ∧ Forall (λ x, ¬ recognized x) pre
    ∧ get lic "type" (VStr "") = VStr s
    ∧ s ∈ CC_LICENSE_TYPES.
Proof.
  induction l as [|x l IH]; simpl; [done|].
  destruct (in_CC_LICENSE_TYPES (get x "type" (VStr ""))) eqn:Hx.
  - intros [= <-]. apply in_CC_LICENSE_TYPES_str in Hx as [Hv Hin].
    exists [], x, l. by repeat split.
  - intros Hs. destruct (IH Hs) as (pre & lic & post & -> & Hpre & Hlic & Hin).
    exists (x :: pre), lic, post. repeat split; try done.
    constructor; [|done]. unfold recognized. by rewrite Hx.
Qed.

Lemma counted_labels_spec s :
  s ∈ counted_labels ↔ s ∈ CC_LICENSE_TYPES ∧ s ≠ UNKNOWN_CC.
Proof.
  unfold counted_labels, CC_LICENSE_TYPES, UNKNOWN_CC.
  rewrite !elem_of_cons, !elem_of_nil. split.
  - intros H. repeat destruct H as [->|H]; try done; (split; [|done]); tauto.
  - intros [H Hne]. repeat destruct H as [->|H]; try done; tauto.
Qed.

(** X1.  A record is counted under [cat] exactly when its license list
    holds a descriptor whose type is one of the seven counted labels, that
    type is [cat], and no descriptor in front of it has a recognized type
    (the catch-all label counts as recognized there, so a catch-all
    descriptor in front hides every later one). *)
Theorem counted_iff_first_recognized_is_cc (j : journal) (cat : string) :
  guard j = Counted cat ↔
  ∃ pre lic post,
    bj_license (get_bibjson j) = Some (pre ++ lic :: post)
    ∧ Forall (λ x, ¬ recognized x) pre
    ∧ get lic "type" (VStr "") = VStr cat
    ∧ cat ∈ counted_labels.
Proof.
  split.
  - unfold guard. destruct (bj_license (get_bibjson j)) as [[|x l]|]; try done.
    change (negb (license_info_truthy (Some (x :: l)))) with false. cbv iota.
    pose proof (eq_refl (extract_license_type (Some (x :: l)))) as Hr.
    revert Hr. generalize (extract_license_type (Some (x :: l))) at 1 3 4.
    intros r Hr. destruct (String.eqb r UNKNOWN_CC) eqn:He; [done|].
    intros [= ->]. apply String.eqb_neq in He.
    unfold extract_license_type in Hr.
    change (negb (nonempty (x :: l))) with false in Hr. cbv iota in Hr.
    destruct (scan_license_info (x :: l)) as [s|] eqn:Hs; [|done]. subst s.
    destruct (scan_license_info_Some _ _ Hs) as (pre & lic & post & Hl & ? & ? & ?).
    exists pre, lic, post. rewrite Hl. repeat split; try done.
    by apply counted_labels_spec.
  - intros (pre & lic & post & Hl & Hpre & Htype & Hcat).
    apply counted_labels_spec in Hcat as [Hin Hne].
    assert (recognized lic) as Hlic.
    { unfold recognized. rewrite Htype. simpl. by apply bool_decide_eq_true. }
    unfold guard. rewrite Hl.
    replace (license_info_truthy (Some (pre ++ lic :: post))) with true
      by (by destruct pre).
    simpl negb. cbv iota.
    assert (extract_license_type (Some (pre ++ lic :: post)) = cat) as ->.
    { unfold extract_license_type.
      replace (nonempty (pre ++ lic :: post)) with true by (by destruct pre).
      simpl negb. cbv iota.
      rewrite (scan_license_info_first pre post lic Hpre Hlic). by rewrite Htype. }
    by rewrite (proj2 (String.eqb_neq _ _) Hne).
Qed.

(** ** Budget, termination and requests *)

(** X2.  With a budget of zero or less the loop body is never entered: no
    page is requested, no delay is made, and [process_journals] returns
    empty tables and a total of 0, whatever the source holds. *)
Theorem no_budget_no_request (fuel : nat) (session : nat → response)
    (args : args_t) :
  limit args ≤ 0 →
  run_loop fuel session args = Some init_state
  ∧ process_journals fuel session args = Some empty_tables
  ∧ st_trace init_state = [].
Proof.
  intros Hlimit.
  assert (run_loop fuel session args = Some init_state) as Hrun.
  { unfold run_loop.
    destruct fuel; simpl;
      by rewrite (proj2 (Z.ltb_ge 0 (limit args)) Hlimit). }
  split; [done|]. split; [|done].
  unfold process_journals. by rewrite Hrun.
Qed.

Lemma no_budget_no_request_witness :
  run_loop 0 session_three_pages (args_of (-3)) = Some init_state
  ∧ process_journals 0 session_three_pages (args_of (-3)) = Some empty_tables
  ∧ st_trace init_state = [].
Proof.
  apply (no_budget_no_request 0 session_three_pages (args_of (-3))).
  simpl. lia.
Defined.

(** X3.  If page [p + 1] is empty or its request fails, the loop returns
    after at most [p + 1] rounds, and the state it returns with does not
    depend on how many more rounds it is allowed. *)
Theorem loop_returns_when_source_ends (session : nat → response)
    (args : args_t) (p : nat) :
  session (S p) = RequestException ∨ session (S p) = Data [] →
  ∃ st, ∀ fuel, (p < fuel)%nat → run_loop fuel session args = Some st.
Proof.
  intros Hend.
  destruct (run_loop_returns session args p Hend (S p)) as [st Hst]; [lia|].
  exists st. intros fuel Hfuel. unfold run_loop in *.
  replace fuel with (S p + (fuel - S p))%nat by lia.
  rewrite while_loop_more.
  by destruct (while_loop (S p) session (limit args) init_state).
Qed.

Lemma loop_returns_when_source_ends_witness :
  ∃ st, ∀ fuel, (1 < fuel)%nat →
        run_loop fuel session_failing (args_of 1000) = Some st.
Proof.
  apply (loop_returns_when_source_ends session_failing (args_of 1000) 1).
  left. reflexivity.
Defined.

Lemma filter_Forall_none {A} (P : A → Prop) `{!∀ x, Decision (P x)}
    (l : list A) :
  Forall (λ x, ¬ P x) l → filter P l = [].
Proof.
  induction 1 as [|x l Hx _ IH]; [done|].
  by rewrite filter_cons_False.
Qed.

Lemma elem_of_fetched_range session k j :
  j ∈ fetched session k →
  ∃ p results, (1 ≤ p ≤ k)%nat ∧ session p = Data results ∧ j ∈ results.
Proof.
  induction k as [|k IH].
  - unfold fetched. simpl. by intros ?%elem_of_nil.
  - rewrite fetched_S, elem_of_app. intros [Hj|Hj].
    + destruct (IH Hj) as (p & results & Hp & Hs & Hin).
      exists p, results. split; [lia | done].
    + destruct (session (S k)) as [|results] eqn:Hs; simpl in Hj.
      * by apply elem_of_nil in Hj.
      * exists (S k), results. split; [lia | done].
Qed.

(** X4.  With a positive budget, a source whose pages are all delivered,
    non-empty and without a single record that qualifies keeps the loop
    running for ever: it has not returned after any number of rounds. *)
Theorem loop_runs_forever_without_qualifying_records
    (session : nat → response) (args : args_t) :
  0 < limit args →
  (∀ p, (1 ≤ p)%nat →
        ∃ results, session p = Data results ∧ results ≠ []
                   ∧ Forall (λ j, ¬ qualifies j) results) →
  ∀ fuel, run_loop fuel session args = None
          ∧ process_journals fuel session args = None.
Proof.
  intros Hlimit Hpages fuel.
  assert (run_loop fuel session args = None) as Hrun.
  { destruct (run_loop fuel session args) as [st|] eqn:Hrun; [|done].
    exfalso.
    destruct (run_loop_spec _ _ _ _ Hrun) as (k & how & _ & Hexit).
    destruct Hexit as (_ & Htab & _ & Hhow).
    assert (processed session (limit args) k = []) as Hnone.
    { unfold processed.
      replace (filter qualifies (fetched session k)) with (@nil journal);
        [by rewrite take_nil|].
      symmetry. apply filter_Forall_none, Forall_forall. intros j Hj.
      apply elem_of_fetched_range in Hj as (p & results & Hp & Hs & Hin).
      destruct (Hpages p) as (results' & Hs' & _ & Hall); [lia|].
      rewrite Hs in Hs'. injection Hs' as <-.
      by eapply Forall_forall in Hall. }
    destruct (Hpages (S k)) as (results & Hs & Hne & _); [lia|].
    destruct how.
    - destruct Hhow as [Hge _]. rewrite Htab, Hnone in Hge.
      simpl in Hge. lia.
    - destruct Hhow as (_ & Hs' & _). congruence.
    - destruct Hhow as (_ & Hs' & _). congruence. }
  split; [done|]. unfold process_journals. by rewrite Hrun.
Qed.

Lemma loop_runs_forever_without_qualifying_records_witness :
  run_loop 7 (λ _, Data [journal_no_license]) (args_of 1) = None
  ∧ process_journals 7 (λ _, Data [journal_no_license]) (args_of 1) = None.
Proof.
  refine (loop_runs_forever_without_qualifying_records
            (λ _, Data [journal_no_license]) (args_of 1) _ _ 7).
  - simpl. lia.
  - intros p _. exists [journal_no_license].
    split; [reflexivity|]. split; [discriminate|].
    apply Forall_cons. split; [|apply Forall_nil_2].
    vm_compute. intros [x Hx]. discriminate Hx.
Defined.

(** X5.  With a budget [N ≥ 0], the total of a run that returns is the
    smaller of [N] and the number of qualifying records on the pages the run
    processed; [query_doaj] writes that number as both
    [total_journals_fetched] and [total_processed] of the provenance record,
    with [total_articles_fetched = 0] and the budget as [limit]. *)
Theorem processed_total_is_min (fuel : nat) (session : nat → response)
    (args : args_t) (st : state) :
  0 ≤ limit args →
  run_loop fuel session args = Some st →
  let available :=
    Z.of_nat (length (filter qualifies (fetched session (pred (st_page st))))) in
  total_processed (st_tables st) = Z.min (limit args) available
  ∧ ∃ prov,
      query_doaj fuel session args = Some prov
      ∧ total_journals_fetched prov = Z.min (limit args) available
      ∧ prov_total_processed prov = Z.min (limit args) available
      ∧ total_articles_fetched prov = 0
      ∧ prov_limit prov = limit args.
Proof.
  intros Hlimit Hrun. simpl.
  destruct (run_loop_spec _ _ _ _ Hrun) as (k & how & _ & Hexit).
  apply at_exit_tables in Hexit as [Hpage Htab]. rewrite Hpage. simpl pred.
  assert (total_processed (st_tables st)
          = Z.min (limit args)
              (Z.of_nat (length (filter qualifies (fetched session k))))) as Htot.
  { rewrite Htab, tally_total. unfold processed. rewrite length_take. lia. }
  split; [done|].
  unfold query_doaj. rewrite (run_loop_process_journals _ _ _ _ Hrun).
  eexists. split; [done|]. simpl. by rewrite Htot.
Qed.

Lemma processed_total_is_min_witness :
  let st := result_state (while_loop 2 session_three_pages 3 init_state) in
  let available :=
    Z.of_nat (length (filter qualifies
                        (fetched session_three_pages (pred (st_page st))))) in
  total_processed (st_tables st) = Z.min (limit (args_of 3)) available
  ∧ ∃ prov,
      query_doaj 2 session_three_pages (args_of 3) = Some prov
      ∧ total_journals_fetched prov = Z.min (limit (args_of 3)) available
      ∧ prov_total_processed prov = Z.min (limit (args_of 3)) available
      ∧ total_articles_fetched prov = 0
      ∧ prov_limit prov = limit (args_of 3).
Proof.
  apply (processed_total_is_min 2 session_three_pages (args_of 3)
           (result_state (while_loop 2 session_three_pages 3 init_state))).
  - simpl. lia.
  - vm_compute. reflexivity.
Defined.

Lemma requested_rounds k : requested (rounds k) = seq 1 k.
Proof.
  induction k as [|k IH]; [done|].
  rewrite rounds_S, seq_S. unfold requested in *.
  rewrite omap_app, IH. done.
Qed.

Lemma sleeps_rounds k : sleeps (rounds k) = k.
Proof.
  induction k as [|k IH]; [done|].
  rewrite rounds_S. unfold sleeps in *.
  rewrite filter_app, length_app, IH. simpl. lia.
Qed.

(** X6.  A run that returns has requested the pages [1, 2, ..., n] in this
    order, each once and none skipped, and has slept once per processed
    page: [n] is the number [k] of processed pages when the budget ended
    the loop and [k + 1] when an empty or failed page ended it. *)
Theorem pages_requested_in_order (fuel : nat) (session : nat → response)
    (args : args_t) (st : state) :
  run_loop fuel session args = Some st →
  let k := pred (st_page st) in
  requested (st_trace st)
  = seq 1 (if bool_decide (limit args ≤ total_processed (st_tables st))
           then k else S k)
  ∧ NoDup (requested (st_trace st))
  ∧ sleeps (st_trace st) = k.
Proof.
  intros Hrun. simpl.
  destruct (run_loop_spec _ _ _ _ Hrun) as (k & how & _ & Hexit).
  destruct Hexit as (Hpage & _ & _ & Hhow). rewrite Hpage. simpl pred.
  assert (requested (st_trace st)
          = seq 1 (if bool_decide (limit args ≤ total_processed (st_tables st))
                   then k else S k)
          ∧ sleeps (st_trace st) = k) as [Hreq Hsl].
  { destruct how.
    - destruct Hhow as [Hge ->]. rewrite bool_decide_eq_true_2 by done.
      by rewrite requested_rounds, sleeps_rounds.
    - destruct Hhow as (Hlt & _ & ->). rewrite bool_decide_eq_false_2 by lia.
      unfold requested, sleeps. rewrite omap_app, filter_app, length_app.
      fold (requested (rounds k)). fold (sleeps (rounds k)).
      rewrite requested_rounds, sleeps_rounds, seq_S. simpl. split; [done | lia].
    - destruct Hhow as (Hlt & _ & ->). rewrite bool_decide_eq_false_2 by lia.
      unfold requested, sleeps. rewrite omap_app, filter_app, length_app.
      fold (requested (rounds k)). fold (sleeps (rounds k)).
      rewrite requested_rounds, sleeps_rounds, seq_S. simpl. split; [done | lia]. }
  split; [done|]. split; [|done].
  rewrite Hreq. apply NoDup_ListNoDup, List.seq_NoDup.
Qed.

Lemma pages_requested_in_order_witness :
  let st := result_state (while_loop 4 session_three_pages 5 init_state) in
  let k := pred (st_page st) in
  requested (st_trace st)
  = seq 1 (if bool_decide (limit (args_of 5) ≤ total_processed (st_tables st))
           then k else S k)
  ∧ NoDup (requested (st_trace st))
  ∧ sleeps (st_trace st) = k.
Proof.
  apply (pages_requested_in_order 4 session_three_pages (args_of 5)
           (result_state (while_loop 4 session_three_pages 5 init_state))).
  vm_compute. reflexivity.
Defined.

(** ** What every cell of the tables holds *)

Lemma cell_incr d c k c' k' :
  cell (nested_incr c k d) c' k'
  = cell d c' k' + (if decide (c = c' ∧ k = k') then 1 else 0).
Proof.
  unfold cell. destruct (decide (c = c')) as [->|Hc].
  - rewrite nested_get_incr_eq. destruct (decide (k = k')) as [->|Hk].
    + rewrite counter_get_incr_eq. by rewrite decide_True.
    + rewrite counter_get_incr_ne by done. rewrite decide_False; [lia | tauto].
  - rewrite nested_get_incr_ne by done. rewrite decide_False; [lia | tauto].
Qed.

Lemma cell_empty cat k : cell ∅ cat k = 0.
Proof. unfold cell, nested_get, counter_get. by rewrite lookup_empty. Qed.

Lemma language_loop_cell license_type (languages : list string) lc cat lang :
  cell (foldl (λ lc lang, nested_incr license_type lang lc) lc languages) cat lang
  = cell lc cat lang
    + (if decide (license_type = cat) then occurrences lang languages else 0).
Proof.
  revert lc. induction languages as [|x languages IH]; intros lc; simpl.
  { unfold occurrences. simpl. case_decide; lia. }
  rewrite IH, cell_incr. unfold occurrences. rewrite filter_cons.
  repeat case_decide; simpl length; try lia; exfalso; destruct_and?; simplify_eq; intuition congruence.
Qed.

Lemma subject_body_cell license_type sc s cat key :
  cell (subject_body license_type sc s) cat key
  = cell sc cat key
    + (if decide (license_type = cat ∧ subject_key s = Some key) then 1 else 0).
Proof.
  unfold subject_body, subject_key. destruct s as [d|v].
  - destruct (truthy _ && truthy _).
    + rewrite cell_incr. repeat case_decide; try lia; exfalso; destruct_and?; simplify_eq; intuition congruence.
    + rewrite decide_False; [lia | by intros [_ ?]].
  - rewrite decide_False; [lia | by intros [_ ?]].
Qed.

Lemma subject_loop_cell license_type subjects sc cat key :
  cell (foldl (subject_body license_type) sc subjects) cat key
  = cell sc cat key
    + (if decide (license_type = cat)
       then Z.of_nat (length (filter (λ s, subject_key s = Some key) subjects))
       else 0).
Proof.
  revert sc. induction subjects as [|s subjects IH]; intros sc; simpl.
  { case_decide; lia. }
  rewrite IH, subject_body_cell, filter_cons.
  repeat case_decide; simpl length; try lia; exfalso; destruct_and?; simplify_eq; intuition congruence.
Qed.

Lemma count_all_additive (f : tables → Z) (w : journal → Z) :
  (∀ j t, f (journal_body j t) = f t + w j) →
  ∀ l t, f (count_all t l) = f t + sum_over w l.
Proof.
  intros Hstep l. induction l as [|j l IH]; intros t; simpl.
  { lia. }
  rewrite IH, Hstep. lia.
Qed.

(** The bucket the loop picks is the bucket that belongs to the value. *)
Lemma year_key_year_bucket (oa_start : value) :
  year_key oa_start = year_bucket oa_start.
Proof.
  unfold year_key. destruct oa_start as [|[]|z|s]; simpl; try done.
  - case_decide as Hz.
    + subst z. done.
    + by rewrite (proj2 (Z.eqb_neq z 0) Hz).
  - case_decide as Hs.
    + subst s. done.
    + by rewrite (proj2 (String.eqb_neq s "") Hs).
Qed.

Lemma year_key_year_of (j : journal) :
  year_key (default VNone (bj_oa_start (get_bibjson j))) = year_of j.
Proof.
  unfold year_of. destruct (bj_oa_start (get_bibjson j)) as [v|]; simpl.
  - apply year_key_year_bucket.
  - done.
Qed.

Section one_record_cells.
Variables (j : journal) (t : tables) (cat : string).

Local Ltac by_category Hc Hd :=
  destruct (category_of j) as [?c|] eqn:Hc;
  [ rewrite (journal_body_counted _ _ _ Hc); simpl
  | rewrite (journal_body_skip _ _ Hc) ];
  case_decide as Hd;
  unfold has_category in Hd; rewrite Hc in Hd.

Lemma journal_body_language_cell lang :
  cell (language_counts (journal_body j t)) cat lang
  = cell (language_counts t) cat lang + language_weight cat lang j.
Proof.
  unfold language_weight. by_category Hc Hd.
  - injection Hd as ->. rewrite language_loop_cell. by rewrite decide_True.
  - rewrite language_loop_cell. rewrite decide_False; congruence.
  - done.
  - lia.
Qed.

Lemma journal_body_subject_cell key :
  cell (subject_counts (journal_body j t)) cat key
  = cell (subject_counts t) cat key + subject_weight cat key j.
Proof.
  unfold subject_weight. by_category Hc Hd.
  - injection Hd as ->. rewrite subject_loop_cell. by rewrite decide_True.
  - rewrite subject_loop_cell. rewrite decide_False; congruence.
  - done.
  - lia.
Qed.

Lemma journal_body_year_cell year :
  cell (year_counts (journal_body j t)) cat year
  = cell (year_counts t) cat year + year_weight cat year j.
Proof.
  unfold year_weight. by_category Hc Hd.
  - rewrite cell_incr, year_key_year_of.
    repeat case_decide; try lia; exfalso; destruct_and?; simplify_eq; intuition congruence.
  - rewrite cell_incr, year_key_year_of.
    repeat case_decide; try lia; exfalso; destruct_and?; simplify_eq; intuition congruence.
  - by destruct Hd.
  - lia.
Qed.

End one_record_cells.

Lemma run_loop_tally fuel session args st :
  run_loop fuel session args = Some st →
  st_tables st = tally (processed session (limit args) (pred (st_page st))).
Proof.
  intros Hrun.
  destruct (run_loop_spec _ _ _ _ Hrun) as (k & how & _ & Hexit).
  by apply at_exit_tables in Hexit as [-> ->].
Qed.

(** X7.  At the end of a run, [language_counts[cat][lang]] is the number of
    times [lang] occurs in the language lists of the records counted under
    [cat]: a language listed twice by a record counts twice. *)
Theorem language_cell_counts_occurrences (fuel : nat)
    (session : nat → response) (args : args_t) (st : state) (cat lang : string) :
  run_loop fuel session args = Some st →
  cell (language_counts (st_tables st)) cat lang
  = sum_over (language_weight cat lang)
      (processed session (limit args) (pred (st_page st))).
Proof.
  intros Hrun. rewrite (run_loop_tally _ _ _ _ Hrun). unfold tally.
  rewrite (count_all_additive (λ t, cell (language_counts t) cat lang)
             (language_weight cat lang)).
  - simpl. rewrite cell_empty. lia.
  - intros j t. apply journal_body_language_cell.
Qed.

Lemma language_cell_counts_occurrences_witness :
  let st := result_state (while_loop 4 session_three_pages 5 init_state) in
  cell (language_counts (st_tables st)) "CC BY" "EN"
  = sum_over (language_weight "CC BY" "EN")
      (processed session_three_pages (limit (args_of 5)) (pred (st_page st))).
Proof.
  apply (language_cell_counts_occurrences 4 session_three_pages (args_of 5)
           (result_state (while_loop 4 session_three_pages 5 init_state))
           "CC BY" "EN").
  vm_compute. reflexivity.
Defined.

(** X8.  At the end of a run, [year_counts[cat][year]] is the number of
    records counted under [cat] whose year bucket is [year].  The bucket of
    a record is fixed by its [oa_start] alone: ["Unknown"] when it is
    absent, [None], [False], the integer 0 or the empty string, and
    otherwise the text of the value (["True"], the decimal digits of a
    non-zero integer, a non-empty string itself). *)
Theorem year_cell_counts_records (fuel : nat) (session : nat → response)
    (args : args_t) (st : state) (cat year : string) :
  run_loop fuel session args = Some st →
  cell (year_counts (st_tables st)) cat year
  = sum_over (year_weight cat year)
      (processed session (limit args) (pred (st_page st))).
Proof.
  intros Hrun. rewrite (run_loop_tally _ _ _ _ Hrun). unfold tally.
  rewrite (count_all_additive (λ t, cell (year_counts t) cat year)
             (year_weight cat year)).
  - simpl. rewrite cell_empty. lia.
  - intros j t. apply journal_body_year_cell.
Qed.

Lemma year_cell_counts_records_witness :
  let st := result_state (while_loop 4 session_three_pages 5 init_state) in
  cell (year_counts (st_tables st)) "CC BY" "2005"
  = sum_over (year_weight "CC BY" "2005")
      (processed session_three_pages (limit (args_of 5)) (pred (st_page st))).
Proof.
  apply (year_cell_counts_records 4 session_three_pages (args_of 5)
           (result_state (while_loop 4 session_three_pages 5 init_state))
           "CC BY" "2005").
  vm_compute. reflexivity.
Defined.

(** X9.  At the end of a run, [subject_counts[cat][key]] is the number of
    subject entries, on the records counted under [cat], that are dicts with
    a truthy code and a truthy term and whose [str(code)|str(term)] is
    [key]; entries that are not dicts or lack a code or a term add
    nothing, and an entry repeated on a record counts each time. *)
Theorem subject_cell_counts_entries (fuel : nat) (session : nat → response)
    (args : args_t) (st : state) (cat key : string) :
  run_loop fuel session args = Some st →
  cell (subject_counts (st_tables st)) cat key
  = sum_over (subject_weight cat key)
      (processed session (limit args) (pred (st_page st))).
Proof.
  intros Hrun. rewrite (run_loop_tally _ _ _ _ Hrun). unfold tally.
  rewrite (count_all_additive (λ t, cell (subject_counts t) cat key)
             (subject_weight cat key)).
  - simpl. rewrite cell_empty. lia.
  - intros j t. apply journal_body_subject_cell.
Qed.

Lemma subject_cell_counts_entries_witness :
  let st := result_state (while_loop 4 session_three_pages 5 init_state) in
  cell (subject_counts (st_tables st)) "CC BY" "Q|Science"
  = sum_over (subject_weight "CC BY" "Q|Science")
      (processed session_three_pages (limit (args_of 5)) (pred (st_page st))).
Proof.
  apply (subject_cell_counts_entries 4 session_three_pages (args_of 5)
           (result_state (while_loop 4 session_three_pages 5 init_state))
           "CC BY" "Q|Science").
  vm_compute. reflexivity.
Defined.

(** ** The shape of the tables *)

Lemma counter_get_nonneg c k : positive_counter c → 0 ≤ counter_get c k.
Proof.
  intros Hc. unfold counter_get.
  destruct (c !! k) as [n|] eqn:Hk; simpl; [|lia].
  specialize (Hc k n Hk). simpl in Hc. lia.
Qed.

Lemma positive_counter_incr c k :
  positive_counter c → positive_counter (counter_incr k c).
Proof.
  intros Hc. unfold counter_incr. apply map_Forall_insert_2; [|done].
  pose proof (counter_get_nonneg c k Hc). lia.
Qed.

Lemma positive_counter_empty : positive_counter ∅.
Proof. apply map_Forall_empty. Qed.

Lemma positive_nested_get d cat :
  positive_nested d → positive_counter (nested_get d cat).
Proof.
  intros Hd. unfold nested_get.
  destruct (d !! cat) as [c|] eqn:Hc; simpl.
  - by destruct (Hd cat c Hc).
  - apply positive_counter_empty.
Qed.

Lemma positive_nested_incr d cat k :
  positive_nested d → positive_nested (nested_incr cat k d).
Proof.
  intros Hd. unfold nested_incr. apply map_Forall_insert_2; [|done].
  split.
  - unfold counter_incr. apply insert_non_empty.
  - by apply positive_counter_incr, positive_nested_get.
Qed.

Lemma dom_nested_incr d cat k :
  dom (nested_incr cat k d) = {[cat]} ∪ dom d.
Proof. unfold nested_incr. apply dom_insert_L. Qed.

Lemma subseteq_union_step (a : string) (X Y Z : gset string) :
  X ⊆ {[a]} ∪ Y → Y ⊆ {[a]} ∪ Z → X ⊆ {[a]} ∪ Z.
Proof.
  intros HXY HYZ x Hx. apply HXY, elem_of_union in Hx as [Hx|Hx].
  - apply elem_of_union. by left.
  - by apply HYZ.
Qed.

Lemma subseteq_union_weaken (a : string) (Y Z : gset string) :
  Y ⊆ Z → Y ⊆ {[a]} ∪ Z.
Proof. intros HYZ x Hx. apply elem_of_union. right. by apply HYZ. Qed.

Lemma subject_loop_wf license_type subjects sc :
  positive_nested sc →
  positive_nested (foldl (subject_body license_type) sc subjects)
  ∧ dom (foldl (subject_body license_type) sc subjects)
    ⊆ {[license_type]} ∪ dom sc.
Proof.
  revert sc. induction subjects as [|s subjects IH]; intros sc Hsc; simpl.
  { split; [done | apply union_subseteq_r]. }
  assert (positive_nested (subject_body license_type sc s)
          ∧ dom (subject_body license_type sc s) ⊆ {[license_type]} ∪ dom sc)
    as [Hpos Hdom].
  { unfold subject_body.
    destruct s as [d|v]; [|split; [done | apply union_subseteq_r]].
    destruct (truthy _ && truthy _); [|split; [done | apply union_subseteq_r]].
    split; [by apply positive_nested_incr|].
    by rewrite dom_nested_incr. }
  destruct (IH _ Hpos) as [Hpos' Hdom']. split; [done|].
  by eapply subseteq_union_step.
Qed.

Lemma language_loop_wf license_type (languages : list string) lc :
  positive_nested lc →
  positive_nested (foldl (λ lc lang, nested_incr license_type lang lc) lc languages)
  ∧ dom (foldl (λ lc lang, nested_incr license_type lang lc) lc languages)
    ⊆ {[license_type]} ∪ dom lc.
Proof.
  revert lc. induction languages as [|x languages IH]; intros lc Hlc; simpl.
  { split; [done | apply union_subseteq_r]. }
  destruct (IH _ (positive_nested_incr lc license_type x Hlc)) as [Hpos Hdom].
  split; [done|]. eapply subseteq_union_step; [exact Hdom|].
  by rewrite dom_nested_incr.
Qed.

Lemma guard_counted_label j cat : guard j = Counted cat → cat ∈ counted_labels.
Proof.
  intros Hg. apply counted_labels_spec. split.
  - revert Hg. unfold guard. destruct (negb _); [done|].
    destruct (String.eqb _ _); [done|]. intros [= <-].
    apply extract_license_type_member.
  - by eapply guard_counted_neq.
Qed.

Lemma tables_wf_empty : tables_wf empty_tables.
Proof.
  unfold tables_wf. simpl.
  split; [apply map_Forall_empty|].
  split; [apply map_Forall_empty|].
  split; [apply map_Forall_empty|].
  split; [apply map_Forall_empty|].
  split; [done|]. split; [done|]. split; [done|].
  intros cat Hcat. rewrite dom_empty_L in Hcat. by apply elem_of_empty in Hcat.
Qed.

Lemma tables_wf_journal_body j t : tables_wf t → tables_wf (journal_body j t).
Proof.
  intros Hwf. rewrite journal_body_guard.
  destruct (guard j) as [| |cat] eqn:Hg; try done.
  destruct Hwf as (Hl & Hs & Hlg & Hy & Hdy & Hds & Hdl & Hlab).
  pose proof (guard_counted_label j cat Hg) as Hcat.
  destruct (subject_loop_wf cat (default [] (bj_subject (get_bibjson j)))
              (subject_counts t) Hs) as [Hs' Hds'].
  destruct (language_loop_wf cat (default [] (bj_language (get_bibjson j)))
              (language_counts t) Hlg) as [Hlg' Hdl'].
  unfold tables_wf, accumulate. simpl.
  assert (dom (counter_incr cat (license_counts t))
          = {[cat]} ∪ dom (license_counts t)) as Hdom.
  { unfold counter_incr. apply dom_insert_L. }
  rewrite Hdom, dom_nested_incr.
  split; [by apply positive_counter_incr|].
  split; [done|]. split; [done|].
  split; [by apply positive_nested_incr|].
  split; [by rewrite Hdy|].
  split; [eapply subseteq_union_step; [exact Hds' | by apply subseteq_union_weaken]|].
  split; [eapply subseteq_union_step; [exact Hdl' | by apply subseteq_union_weaken]|].
  intros c [->%elem_of_singleton|Hc]%elem_of_union; [done | by apply Hlab].
Qed.

Lemma tables_wf_count_all l t : tables_wf t → tables_wf (count_all t l).
Proof.
  revert t. induction l as [|j l IH]; intros t Hwf; simpl; [done|].
  by apply IH, tables_wf_journal_body.
Qed.

Lemma run_loop_wf fuel session args st :
  run_loop fuel session args = Some st → tables_wf (st_tables st).
Proof.
  intros Hrun. rewrite (run_loop_tally _ _ _ _ Hrun).
  apply tables_wf_count_all, tables_wf_empty.
Qed.

(** X10.  At the end of a run the year table has exactly the categories of
    the license table, the subject and language tables have no category
    that the license table lacks, and every category is one of the seven
    counted labels: the catch-all label is never a key. *)
Theorem table_categories (fuel : nat) (session : nat → response)
    (args : args_t) (st : state) :
  run_loop fuel session args = Some st →
  let t := st_tables st in
  dom (year_counts t) = dom (license_counts t)
  ∧ dom (subject_counts t) ⊆ dom (license_counts t)
  ∧ dom (language_counts t) ⊆ dom (license_counts t)
  ∧ (∀ cat, cat ∈ dom (license_counts t) → cat ∈ counted_labels)
  ∧ UNKNOWN_CC ∉ dom (license_counts t).
Proof.
  intros Hrun. simpl.
  destruct (run_loop_wf _ _ _ _ Hrun) as (_ & _ & _ & _ & Hdy & Hds & Hdl & Hlab).
  repeat split; try done.
  intros Hin. apply Hlab, counted_labels_spec in Hin. by destruct Hin.
Qed.

Lemma table_categories_witness :
  let t := st_tables
             (result_state (while_loop 4 session_three_pages 5 init_state)) in
  dom (year_counts t) = dom (license_counts t)
  ∧ dom (subject_counts t) ⊆ dom (license_counts t)
  ∧ dom (language_counts t) ⊆ dom (license_counts t)
  ∧ (∀ cat, cat ∈ dom (license_counts t) → cat ∈ counted_labels)
  ∧ UNKNOWN_CC ∉ dom (license_counts t).
Proof.
  apply (table_categories 4 session_three_pages (args_of 5)
           (result_state (while_loop 4 session_three_pages 5 init_state))).
  vm_compute. reflexivity.
Defined.

(** X11.  At the end of a run no table holds a zero: every license count is
    at least 1, and every category present in the subject, language or year
    table has at least one key, each with a count of at least 1.  So
    [save_count_data] writes no row with a count below 1. *)
Theorem table_counts_positive (fuel : nat) (session : nat → response)
    (args : args_t) (st : state) :
  run_loop fuel session args = Some st →
  let t := st_tables st in
  (∀ cat n, license_counts t !! cat = Some n → 1 ≤ n)
  ∧ ∀ d, d ∈ [subject_counts t; language_counts t; year_counts t] →
         ∀ cat c, d !! cat = Some c →
                  c ≠ ∅ ∧ ∀ k n, c !! k = Some n → 1 ≤ n.
Proof.
  intros Hrun. simpl.
  destruct (run_loop_wf _ _ _ _ Hrun) as (Hl & Hs & Hlg & Hy & _).
  split; [exact Hl|].
  intros d Hd cat c Hc.
  assert (positive_nested d) as Hpos.
  { rewrite !elem_of_cons, elem_of_nil in Hd.
    destruct Hd as [->|[->|[->|[]]]]; done. }
  destruct (Hpos cat c Hc) as [Hne Hc']. split; [done | exact Hc'].
Qed.

Lemma table_counts_positive_witness :
  let t := st_tables
             (result_state (while_loop 4 session_three_pages 5 init_state)) in
  (∀ cat n, license_counts t !! cat = Some n → 1 ≤ n)
  ∧ ∀ d, d ∈ [subject_counts t; language_counts t; year_counts t] →
         ∀ cat c, d !! cat = Some c →
                  c ≠ ∅ ∧ ∀ k n, c !! k = Some n → 1 ≤ n.
Proof.
  apply (table_counts_positive 4 session_three_pages (args_of 5)
           (result_state (while_loop 4 session_three_pages 5 init_state))).
  vm_compute. reflexivity.
Defined.

(** * Properties of the output *)

(** ** Subject keys and the subject report *)

Lemma has_bar_append_bar (a b : string) : has_bar (a +:+ "|" +:+ b) = true.
Proof.
  induction a as [|c a IH]; simpl.
  - done.
  - rewrite IH. apply orb_true_r.
Qed.

Lemma split_bar_append (a b : string) :
  has_bar a = false → split_bar (a +:+ "|" +:+ b) = Some (a, b).
Proof.
  induction a as [|c a IH]; simpl.
  - done.
  - intros [Hc Ha]%orb_false_iff. rewrite Hc. by rewrite (IH Ha).
Qed.

Lemma split_bar_Some (s a b : string) :
  split_bar s = Some (a, b) → s = a +:+ "|" +:+ b ∧ has_bar a = false.
Proof.
  revert a. induction s as [|c s IH]; intros a; simpl; [done|].
  destruct (Ascii.eqb c bar) eqn:Hc.
  - intros [= <- <-]. apply Ascii.eqb_eq in Hc as ->. done.
  - destruct (split_bar s) as [[a' b']|]; [|done].
    intros [= <- <-]. destruct (IH a' eq_refl) as [-> Ha'].
    simpl. by rewrite Hc, Ha'.
Qed.

Lemma has_bar_split_bar (s : string) :
  has_bar s = true → is_Some (split_bar s).
Proof.
  induction s as [|c s IH]; simpl; [done|].
  destruct (Ascii.eqb c bar); simpl; [by eexists|].
  intros Hs. destruct (IH Hs) as [[a b] ->]. by eexists.
Qed.

(** X12.  For a subject entry that the loop counts and whose code holds no
    ["|"], the row that [save_count_data] writes for its key has
    [str(code)] in the code column and [str(term)] in the label column: the
    key is cut where the loop joined it. *)
Theorem subject_row_round_trip (lic : string) (d : gmap string value) (n : Z) :
  truthy (get d "code" (VStr "")) && truthy (get d "term" (VStr "")) = true →
  has_bar (str (get d "code" (VStr ""))) = false →
  ∃ key,
    subject_key (SubjectDict d) = Some key
    ∧ subject_row lic key n
      = [VStr lic; VStr (str (get d "code" (VStr "")));
         VStr (str (get d "term" (VStr ""))); VInt n].
Proof.
  intros Hcount Hbar. eexists. split.
  { unfold subject_key. by rewrite Hcount. }
  unfold subject_row, subject_code_label.
  rewrite has_bar_append_bar. by rewrite split_bar_append.
Qed.

Lemma subject_row_round_trip_witness :
  ∃ key,
    subject_key (subject_of "Q" "Science") = Some key
    ∧ subject_row "CC BY" key 3
      = [VStr "CC BY";
         VStr (str (get {[ "code" := VStr "Q"; "term" := VStr "Science" ]}
                        "code" (VStr "")));
         VStr (str (get {[ "code" := VStr "Q"; "term" := VStr "Science" ]}
                        "term" (VStr "")));
         VInt 3].
Proof.
  apply (subject_row_round_trip "CC BY"
           {[ "code" := VStr "Q"; "term" := VStr "Science" ]} 3);
    reflexivity.
Defined.

(** X18.  Two counted subject entries whose codes hold no ["|"] share a
    key, and so a cell of the subject table and a row of the report, only if
    their codes and their terms have the same text. *)
Theorem subject_key_injective (d d' : gmap string value) (key : string) :
  subject_key (SubjectDict d) = Some key →
  subject_key (SubjectDict d') = Some key →
  has_bar (str (get d "code" (VStr ""))) = false →
  has_bar (str (get d' "code" (VStr ""))) = false →
  str (get d "code" (VStr "")) = str (get d' "code" (VStr ""))
  ∧ str (get d "term" (VStr "")) = str (get d' "term" (VStr "")).
Proof.
  unfold subject_key.
  destruct (truthy (get d "code" (VStr "")) && truthy (get d "term" (VStr "")));
    [|done].
  destruct (truthy (get d' "code" (VStr "")) && truthy (get d' "term" (VStr "")));
    [|done].
  intros [= <-] [= Hkey] Hbar Hbar'.
  pose proof (split_bar_append _ (str (get d "term" (VStr ""))) Hbar) as H1.
  pose proof (split_bar_append _ (str (get d' "term" (VStr ""))) Hbar') as H2.
  rewrite Hkey in H2. rewrite H1 in H2. by injection H2 as -> ->.
Qed.

Lemma subject_key_injective_witness :
  str (get {[ "code" := VStr "7"; "term" := VStr "Law" ]} "code" (VStr ""))
  = str (get {[ "code" := VInt 7; "term" := VStr "Law" ]} "code" (VStr ""))
  ∧ str (get {[ "code" := VStr "7"; "term" := VStr "Law" ]} "term" (VStr ""))
    = str (get {[ "code" := VInt 7; "term" := VStr "Law" ]} "term" (VStr "")).
Proof.
  apply (subject_key_injective
           {[ "code" := VStr "7"; "term" := VStr "Law" ]}
           {[ "code" := VInt 7; "term" := VStr "Law" ]} "7|Law");
    reflexivity.
Defined.

Lemma nested_keys_incr (P : string → Prop) d cat k :
  P k → nested_keys P d → nested_keys P (nested_incr cat k d).
Proof.
  intros Hk Hd. unfold nested_incr. apply map_Forall_insert_2; [|done].
  unfold counter_incr. apply map_Forall_insert_2; [done|].
  unfold nested_get. destruct (d !! cat) as [c|] eqn:Hc; simpl.
  - by apply (Hd cat c).
  - apply map_Forall_empty.
Qed.

Lemma subject_loop_keys license_type subjects sc :
  nested_keys (λ k, has_bar k = true) sc →
  nested_keys (λ k, has_bar k = true)
    (foldl (subject_body license_type) sc subjects).
Proof.
  revert sc. induction subjects as [|s subjects IH]; intros sc Hsc; simpl.
  { done. }
  apply IH. unfold subject_body. destruct s as [d|v]; [|done].
  destruct (truthy _ && truthy _); [|done].
  apply nested_keys_incr; [|done]. apply has_bar_append_bar.
Qed.

Lemma count_all_subject_keys l t :
  nested_keys (λ k, has_bar k = true) (subject_counts t) →
  nested_keys (λ k, has_bar k = true) (subject_counts (count_all t l)).
Proof.
  revert t. induction l as [|j l IH]; intros t Ht; simpl; [done|].
  apply IH. rewrite journal_body_guard.
  destruct (guard j) as [| |cat]; try done.
  simpl. by apply subject_loop_keys.
Qed.

Lemma elem_of_nested_rows row d r :
  r ∈ nested_rows row d ↔
  ∃ lic c k n, d !! lic = Some c ∧ c !! k = Some n ∧ r = row lic k n.
Proof.
  unfold nested_rows. rewrite list_elem_of_bind. split.
  - intros ([lic c] & Hr & Hd). simpl in Hr.
    apply list_elem_of_fmap in Hr as ([k n] & -> & Hc).
    apply elem_of_map_to_list in Hd, Hc. by exists lic, c, k, n.
  - intros (lic & c & k & n & Hd & Hc & ->).
    exists (lic, c). split; [|by apply elem_of_map_to_list].
    simpl. apply list_elem_of_fmap. exists (k, n).
    split; [done | by apply elem_of_map_to_list].
Qed.

(** X13.  After a run, every row of the subject report comes from a key
    that holds a ["|"], so the fallback of [save_count_data] that copies the
    whole key into both columns is never taken for tables built by
    [process_journals]: code and label joined by ["|"] give back the key
    of a cell of the subject table, the code column holds no ["|"] (it ends
    at the first one, so a code that itself holds a ["|"] is cut short and
    its tail moves to the label), and the count is that cell's and at
    least 1. *)
Theorem subject_report_rows_decode_keys (fuel : nat)
    (session : nat → response) (args : args_t) (st : state)
    (r : list value) :
  run_loop fuel session args = Some st →
  r ∈ nested_rows subject_row (subject_counts (st_tables st)) →
  ∃ lic code label c n,
    r = [VStr lic; VStr code; VStr label; VInt n]
    ∧ has_bar code = false
    ∧ subject_counts (st_tables st) !! lic = Some c
    ∧ c !! (code +:+ "|" +:+ label) = Some n
    ∧ 1 ≤ n.
Proof.
  intros Hrun Hr.
  apply elem_of_nested_rows in Hr as (lic & c & key & n & Hd & Hc & ->).
  assert (has_bar key = true) as Hbar.
  { pose proof (count_all_subject_keys
                  (processed session (limit args) (pred (st_page st)))
                  empty_tables) as Hkeys.
    fold (tally (processed session (limit args) (pred (st_page st)))) in Hkeys.
    rewrite <- (run_loop_tally _ _ _ _ Hrun) in Hkeys.
    by apply (Hkeys (map_Forall_empty _) lic c Hd key n Hc). }
  destruct (has_bar_split_bar key Hbar) as [[code label] Hsplit].
  destruct (split_bar_Some _ _ _ Hsplit) as [Hkey Hcode].
  destruct (run_loop_wf _ _ _ _ Hrun) as (_ & Hs & _).
  destruct (Hs lic c Hd) as [_ Hpos].
  exists lic, code, label, c, n.
  split.
  { unfold subject_row, subject_code_label. by rewrite Hbar, Hsplit. }
  split; [done|]. split; [done|]. split; [by rewrite <- Hkey|].
  by apply (Hpos key n).
Qed.

Lemma subject_report_rows_decode_keys_witness :
  let st := result_state (while_loop 4 session_three_pages 5 init_state) in
  ∃ lic code label c n,
    subject_row "CC BY" "Q|Science" 3
    = [VStr lic; VStr code; VStr label; VInt n]
    ∧ has_bar code = false
    ∧ subject_counts (st_tables st) !! lic = Some c
    ∧ c !! (code +:+ "|" +:+ label) = Some n
    ∧ 1 ≤ n.
Proof.
  apply (subject_report_rows_decode_keys 4 session_three_pages (args_of 5)
           (result_state (while_loop 4 session_three_pages 5 init_state))
           (subject_row "CC BY" "Q|Science" 3)).
  - vm_compute. reflexivity.
  - vm_compute. apply list_elem_of_here.
Defined.

(** ** The COUNT columns *)

Lemma count_column_count_rows (lc : gmap string Z) :
  count_column (count_rows lc) = counter_total lc.
Proof.
  unfold count_column, count_rows, counter_total. rewrite map_fold_foldr.
  induction (map_to_list lc) as [|[lic n] l IH]; simpl; [done|].
  f_equal. exact IH.
Qed.

Lemma count_column_app rows1 rows2 :
  count_column (rows1 ++ rows2) = count_column rows1 + count_column rows2.
Proof.
  unfold count_column, sum_over. induction rows1 as [|r rows1 IH]; simpl.
  - lia.
  - rewrite IH. lia.
Qed.

Lemma count_column_nested_rows row (d : gmap string (gmap string Z)) :
  (∀ lic k n, last (row lic k n) = Some (VInt n)) →
  count_column (nested_rows row d) = nested_total d.
Proof.
  intros Hrow. unfold nested_rows, nested_total. rewrite map_fold_foldr.
  induction (map_to_list d) as [|[lic c] l IH]; [done|].
  rewrite bind_cons, count_column_app, IH. simpl. f_equal.
  unfold counter_total. rewrite map_fold_foldr.
  unfold count_column, sum_over.
  induction (map_to_list c) as [|[k n] l' IH']; simpl; [done|].
  rewrite Hrow. f_equal. exact IH'.
Qed.

Lemma nested_total_insert_fresh d cat c :
  d !! cat = None → nested_total (<[cat:=c]> d) = counter_total c + nested_total d.
Proof.
  intros Hd. unfold nested_total.
  rewrite map_fold_insert_L; [done | intros; lia | done].
Qed.

Lemma nested_total_lookup d cat c :
  d !! cat = Some c → nested_total d = counter_total c + nested_total (delete cat d).
Proof.
  intros Hd. unfold nested_total.
  rewrite (map_fold_delete_L _ _ cat c d); [done | intros; lia | done].
Qed.

Lemma nested_total_incr d cat k :
  nested_total (nested_incr cat k d) = nested_total d + 1.
Proof.
  unfold nested_incr, nested_get.
  destruct (d !! cat) as [c|] eqn:Hd; simpl.
  - rewrite <- insert_delete_eq.
    rewrite nested_total_insert_fresh by apply lookup_delete_eq.
    rewrite (nested_total_lookup d cat c Hd), counter_total_incr. lia.
  - rewrite nested_total_insert_fresh by done.
    rewrite counter_total_incr, counter_total_empty. lia.
Qed.

Lemma nested_total_empty : nested_total ∅ = 0.
Proof. unfold nested_total. by rewrite map_fold_empty. Qed.

Lemma journal_body_year_total j t :
  nested_total (year_counts (journal_body j t)) - total_processed (journal_body j t)
  = nested_total (year_counts t) - total_processed t + 0.
Proof.
  rewrite journal_body_guard. destruct (guard j) as [| |cat]; try lia.
  simpl. rewrite nested_total_incr. lia.
Qed.

Lemma sum_over_zero {A} (l : list A) : sum_over (λ _, 0) l = 0.
Proof. unfold sum_over. induction l as [|x l IH]; simpl; lia. Qed.

Lemma run_loop_year_total fuel session args st :
  run_loop fuel session args = Some st →
  nested_total (year_counts (st_tables st)) = total_processed (st_tables st).
Proof.
  intros Hrun. rewrite (run_loop_tally _ _ _ _ Hrun). unfold tally.
  pose proof (count_all_additive
                (λ t, nested_total (year_counts t) - total_processed t)
                (λ _, 0) journal_body_year_total
                (processed session (limit args) (pred (st_page st)))
                empty_tables) as H.
  simpl in H. rewrite nested_total_empty in H.
  rewrite sum_over_zero in H. lia.
Qed.

Lemma run_loop_license_total fuel session args st :
  run_loop fuel session args = Some st →
  counter_total (license_counts (st_tables st)) = total_processed (st_tables st).
Proof.
  intros Hrun. rewrite (run_loop_tally _ _ _ _ Hrun).
  apply tally_license_total.
Qed.

Lemma save_count_data_lookup P lc sc lgc yc fs :
  NoDup (data_files P) →
  let fs' := save_count_data P lc sc lgc yc fs in
  fs' !! FILE_DOAJ_COUNT P = Some (CsvFile HEADER_COUNT (count_rows lc))
  ∧ fs' !! FILE_DOAJ_SUBJECT_REPORT P
    = Some (CsvFile HEADER_SUBJECT_REPORT (nested_rows subject_row sc))
  ∧ fs' !! FILE_DOAJ_LANGUAGE P
    = Some (CsvFile HEADER_LANGUAGE (nested_rows language_row lgc))
  ∧ fs' !! FILE_DOAJ_YEAR P
    = Some (CsvFile HEADER_YEAR (nested_rows year_row yc)).
Proof.
  unfold data_files. rewrite !NoDup_cons, !not_elem_of_cons.
  intros ((? & ? & ? & _) & (? & ? & _) & (? & _) & _). simpl.
  unfold save_count_data. split_and!.
  - by rewrite !lookup_insert_ne, lookup_insert_eq by done.
  - by rewrite !lookup_insert_ne, lookup_insert_eq by done.
  - by rewrite lookup_insert_ne, lookup_insert_eq by done.
  - by rewrite lookup_insert_eq.
Qed.

Lemma save_count_data_other P lc sc lgc yc fs path :
  path ∉ data_files P →
  save_count_data P lc sc lgc yc fs !! path = fs !! path.
Proof.
  unfold data_files. rewrite !not_elem_of_cons.
  intros (? & ? & ? & ? & _). unfold save_count_data.
  by rewrite !lookup_insert_ne by done.
Qed.

(** X14.  When saving is enabled, the provenance file can be written and the
    five paths are distinct, [query_doaj] leaves a count file and a year
    file whose COUNT columns both add up to the [total_processed] it writes
    to the provenance file. *)
Theorem count_columns_add_up_to_total (P : file_paths) (fuel : nat)
    (session : nat → response) (args : args_t) (fs fs' : gmap string file) :
  NoDup (data_files P ++ [FILE_PROVENANCE P]) →
  enable_save args = true →
  query_doaj_files P true fuel session args fs = Some fs' →
  ∃ count_rows year_rows prov,
    fs' !! FILE_DOAJ_COUNT P = Some (CsvFile HEADER_COUNT count_rows)
    ∧ fs' !! FILE_DOAJ_YEAR P = Some (CsvFile HEADER_YEAR year_rows)
    ∧ fs' !! FILE_PROVENANCE P = Some (YamlFile prov)
    ∧ query_doaj fuel session args = Some prov
    ∧ count_column count_rows = prov_total_processed prov
    ∧ count_column year_rows = prov_total_processed prov.
Proof.
  intros Hnodup Hsave. apply NoDup_app in Hnodup as (Hdata & Hprov & _).
  unfold query_doaj_files, query_doaj, process_journals.
  destruct (run_loop fuel session args) as [st|] eqn:Hrun; [|done].
  simpl. rewrite Hsave. intros [= <-].
  destruct (save_count_data_lookup P (license_counts (st_tables st))
              (subject_counts (st_tables st)) (language_counts (st_tables st))
              (year_counts (st_tables st)) fs Hdata) as (Hc & _ & _ & Hy).
  assert (FILE_DOAJ_COUNT P ≠ FILE_PROVENANCE P
          ∧ FILE_DOAJ_YEAR P ≠ FILE_PROVENANCE P) as [Hn1 Hn2].
  { split; intros Heq; apply (Hprov (FILE_PROVENANCE P));
      rewrite <- ?Heq; unfold data_files;
      rewrite ?elem_of_cons, ?list_elem_of_singleton; tauto. }
  eexists _, _, _. split_and!.
  - rewrite lookup_insert_ne by done. exact Hc.
  - rewrite lookup_insert_ne by done. exact Hy.
  - apply lookup_insert_eq.
  - done.
  - simpl. rewrite count_column_count_rows.
    by apply run_loop_license_total in Hrun.
  - simpl. rewrite count_column_nested_rows by done.
    by apply run_loop_year_total in Hrun.
Qed.

Lemma count_columns_add_up_to_total_witness :
  ∃ count_rows year_rows prov,
    default ∅ (query_doaj_files sample_paths true 4 session_three_pages
                 (MkArgs 5 true false) ∅)
      !! FILE_DOAJ_COUNT sample_paths
    = Some (CsvFile HEADER_COUNT count_rows)
    ∧ default ∅ (query_doaj_files sample_paths true 4 session_three_pages
                   (MkArgs 5 true false) ∅)
        !! FILE_DOAJ_YEAR sample_paths
      = Some (CsvFile HEADER_YEAR year_rows)
    ∧ default ∅ (query_doaj_files sample_paths true 4 session_three_pages
                   (MkArgs 5 true false) ∅)
        !! FILE_PROVENANCE sample_paths
      = Some (YamlFile prov)
    ∧ query_doaj 4 session_three_pages (MkArgs 5 true false) = Some prov
    ∧ count_column count_rows = prov_total_processed prov
    ∧ count_column year_rows = prov_total_processed prov.
Proof.
  apply (count_columns_add_up_to_total sample_paths 4 session_three_pages
           (MkArgs 5 true false) ∅).
  - apply (bool_decide_unpack _). vm_compute. exact I.
  - reflexivity.
  - vm_compute. reflexivity.
Defined.

(** ** Creating the files *)

Lemma initialize_data_file_lookup file_path headers fs path :
  initialize_data_file file_path headers fs !! path
  = match fs !! path with
    | Some f => Some f
    | None => if decide (path = file_path) then Some (CsvFile headers []) else None
    end.
Proof.
  unfold initialize_data_file.
  destruct (fs !! file_path) as [f|] eqn:Hf.
  - destruct (fs !! path) as [g|] eqn:Hg; [done|].
    case_decide; [congruence | done].
  - destruct (decide (path = file_path)) as [->|Hne].
    + by rewrite lookup_insert_eq, Hf.
    + rewrite lookup_insert_ne by done. by destruct (fs !! path).
Qed.

Lemma initialize_data_file_keeps file_path headers fs path f :
  fs !! path = Some f →
  initialize_data_file file_path headers fs !! path = Some f.
Proof. intros Hf. by rewrite initialize_data_file_lookup, Hf. Qed.

Lemma initialize_data_file_other file_path headers fs path :
  path ≠ file_path →
  initialize_data_file file_path headers fs !! path = fs !! path.
Proof.
  intros Hne. rewrite initialize_data_file_lookup.
  destruct (fs !! path); [done|]. by rewrite decide_False.
Qed.

Lemma initialize_data_file_exists file_path headers fs :
  is_Some (initialize_data_file file_path headers fs !! file_path).
Proof.
  rewrite initialize_data_file_lookup.
  destruct (fs !! file_path); [by eexists|]. rewrite decide_True by done.
  by eexists.
Qed.

Lemma initialize_data_file_present file_path headers fs :
  is_Some (fs !! file_path) → initialize_data_file file_path headers fs = fs.
Proof. intros [f Hf]. unfold initialize_data_file. by rewrite Hf. Qed.

Lemma initialize_data_file_is_Some file_path headers fs path :
  is_Some (fs !! path) →
  is_Some (initialize_data_file file_path headers fs !! path).
Proof.
  intros [f Hf]. exists f. by apply initialize_data_file_keeps.
Qed.

Lemma initialize_all_data_files_other P args fs path :
  path ∉ data_files P →
  initialize_all_data_files P args fs !! path = fs !! path.
Proof.
  unfold data_files. rewrite !not_elem_of_cons. intros (? & ? & ? & ? & _).
  unfold initialize_all_data_files. destruct (negb (enable_save args)); [done|].
  by rewrite !initialize_data_file_other by done.
Qed.

(** X15.  [initialize_all_data_files] never changes a file that exists:
    every file of the file system, the four data files included, keeps its
    content, and paths other than the four are left alone.  With saving
    disabled it does nothing; with saving enabled the four data files exist
    afterwards; and running it a second time changes nothing. *)
Theorem initialize_keeps_existing_files (P : file_paths) (args : args_t)
    (fs : gmap string file) :
  (∀ path f, fs !! path = Some f →
             initialize_all_data_files P args fs !! path = Some f)
  ∧ (∀ path, path ∉ data_files P →
             initialize_all_data_files P args fs !! path = fs !! path)
  ∧ (enable_save args = false → initialize_all_data_files P args fs = fs)
  ∧ (enable_save args = true →
     ∀ path, path ∈ data_files P →
             is_Some (initialize_all_data_files P args fs !! path))
  ∧ initialize_all_data_files P args (initialize_all_data_files P args fs)
    = initialize_all_data_files P args fs.
Proof.
  assert (enable_save args = true →
          ∀ path, path ∈ data_files P →
                  is_Some (initialize_all_data_files P args fs !! path))
    as Hexist.
  { intros Hsave path Hpath. unfold initialize_all_data_files.
    rewrite Hsave. simpl. unfold data_files in Hpath.
    rewrite !elem_of_cons, elem_of_nil in Hpath.
    destruct Hpath as [->|[->|[->|[->|[]]]]].
    - do 3 apply initialize_data_file_is_Some.
      apply initialize_data_file_exists.
    - do 2 apply initialize_data_file_is_Some.
      apply initialize_data_file_exists.
    - apply initialize_data_file_is_Some, initialize_data_file_exists.
    - apply initialize_data_file_exists. }
  split_and!.
  - intros path f Hf. unfold initialize_all_data_files.
    destruct (negb (enable_save args)); [done|].
    by do 4 apply initialize_data_file_keeps.
  - intros path. apply initialize_all_data_files_other.
  - intros Hsave. unfold initialize_all_data_files. by rewrite Hsave.
  - exact Hexist.
  - destruct (enable_save args) eqn:Hsave.
    + specialize (Hexist eq_refl).
      set (fs' := initialize_all_data_files P args fs) in *.
      unfold initialize_all_data_files at 1. rewrite Hsave. simpl.
      assert (∀ path, path ∈ data_files P → is_Some (fs' !! path)) as H
        by exact Hexist.
      unfold data_files in H.
      rewrite (initialize_data_file_present (FILE_DOAJ_COUNT P))
        by (apply H; rewrite !elem_of_cons; tauto).
      rewrite (initialize_data_file_present (FILE_DOAJ_SUBJECT_REPORT P))
        by (apply H; rewrite !elem_of_cons; tauto).
      rewrite (initialize_data_file_present (FILE_DOAJ_LANGUAGE P))
        by (apply H; rewrite !elem_of_cons; tauto).
      by rewrite (initialize_data_file_present (FILE_DOAJ_YEAR P))
        by (apply H; rewrite !elem_of_cons; tauto).
    + unfold initialize_all_data_files. by rewrite Hsave.
Qed.

(** ** Writing the files *)

(** X17.  [query_doaj] touches no path other than the four data files and
    the provenance file.  With saving disabled it touches no data file
    either, yet it still writes the provenance file, with the record that
    holds the processed total; if that file cannot be opened the run still
    returns and, with saving disabled, leaves the file system as it was. *)
Theorem query_without_save_writes_provenance_only (P : file_paths)
    (provenance_ok : bool) (fuel : nat) (session : nat → response)
    (args : args_t) (fs fs' : gmap string file) :
  query_doaj_files P provenance_ok fuel session args fs = Some fs' →
  (∀ path, path ∉ data_files P → path ≠ FILE_PROVENANCE P →
           fs' !! path = fs !! path)
  ∧ (enable_save args = false →
     ∀ path, path ≠ FILE_PROVENANCE P → fs' !! path = fs !! path)
  ∧ (provenance_ok = true →
     ∃ prov, query_doaj fuel session args = Some prov
             ∧ fs' !! FILE_PROVENANCE P = Some (YamlFile prov))
  ∧ (provenance_ok = false → enable_save args = false → fs' = fs).
Proof.
  unfold query_doaj_files, query_doaj.
  destruct (process_journals fuel session args) as [t|]; [|done].
  intros [= <-]. split_and!.
  - intros path Hdata Hprov.
    assert ((if enable_save args
             then save_count_data P (license_counts t) (subject_counts t)
                    (language_counts t) (year_counts t) fs
             else fs) !! path = fs !! path) as Hsave.
    { destruct (enable_save args); [|done].
      by apply save_count_data_other. }
    destruct provenance_ok; [|done].
    by rewrite lookup_insert_ne.
  - intros -> path Hprov. destruct provenance_ok; [|done].
    by rewrite lookup_insert_ne.
  - intros ->. eexists. split; [done|]. apply lookup_insert_eq.
  - by intros -> ->.
Qed.

Lemma query_without_save_writes_provenance_only_witness :
  let fs := {[ "data/doaj_1_count.csv" := CsvFile HEADER_COUNT [] ]} in
  let fs' := default ∅ (query_doaj_files sample_paths true 4
                          session_three_pages (args_of 5) fs) in
  (∀ path, path ∉ data_files sample_paths →
           path ≠ FILE_PROVENANCE sample_paths → fs' !! path = fs !! path)
  ∧ (enable_save (args_of 5) = false →
     ∀ path, path ≠ FILE_PROVENANCE sample_paths → fs' !! path = fs !! path)
  ∧ (true = true →
     ∃ prov, query_doaj 4 session_three_pages (args_of 5) = Some prov
             ∧ fs' !! FILE_PROVENANCE sample_paths = Some (YamlFile prov))
  ∧ (true = false → enable_save (args_of 5) = false → fs' = fs).
Proof.
  apply (query_without_save_writes_provenance_only sample_paths true 4
           session_three_pages (args_of 5)
           {[ "data/doaj_1_count.csv" := CsvFile HEADER_COUNT [] ]}).
  vm_compute. reflexivity.
Defined.

(** ** Language names *)

Lemma LANGUAGE_NAMES_no_fixpoint :
  map_Forall (λ code name, name ≠ code) LANGUAGE_NAMES.
Proof. apply (bool_decide_unpack _). vm_compute. exact I. Qed.

Lemma LANGUAGE_NAMES_distinct :
  NoDup (map_to_list LANGUAGE_NAMES).*2.
Proof. apply (bool_decide_unpack _). vm_compute. exact I. Qed.

(** X19.  The language file shows the code of a row unchanged and next to
    it the name from [LANGUAGE_NAMES], or the code again when the table
    does not have it.  No code of the table is its own name, so the two
    columns are equal exactly for the codes the table lacks; and no two
    codes of the table share a name. *)
Theorem language_row_name (lic lang_code : string) (n : Z) :
  ∃ lang_name,
    language_row lic lang_code n
    = [VStr lic; VStr lang_code; VStr lang_name; VInt n]
    ∧ (lang_name = lang_code ↔ LANGUAGE_NAMES !! lang_code = None)
    ∧ (∀ other,
         LANGUAGE_NAMES !! other = Some lang_name →
         LANGUAGE_NAMES !! lang_code = Some lang_name →
         other = lang_code).
Proof.
  exists (default lang_code (LANGUAGE_NAMES !! lang_code)).
  split; [done|]. split.
  - destruct (LANGUAGE_NAMES !! lang_code) as [name|] eqn:Hname; simpl.
    + split; [|done]. intros ->.
      by destruct (LANGUAGE_NAMES_no_fixpoint lang_code lang_code Hname).
    + done.
  - intros other Hother Hcode.
    set (name := default lang_code (LANGUAGE_NAMES !! lang_code)) in *.
    apply elem_of_map_to_list in Hother, Hcode.
    pose proof LANGUAGE_NAMES_distinct as Hnd.
    apply list_elem_of_lookup in Hother as [i Hi].
    apply list_elem_of_lookup in Hcode as [i' Hi'].
    assert (i = i') as ->.
    { eapply NoDup_lookup; [exact Hnd| |].
      - rewrite list_lookup_fmap, Hi. done.
      - rewrite list_lookup_fmap, Hi'. done. }
    rewrite Hi in Hi'. by injection Hi' as ->.
Qed.

(** * The budget *)

Lemma sum_over_nonneg {A} (w : A → Z) (l : list A) :
  (∀ x, 0 ≤ w x) → 0 ≤ sum_over w l.
Proof.
  intros Hw. unfold sum_over. induction l as [|x l IH]; simpl; [done|].
  specialize (Hw x). lia.
Qed.

Lemma sum_over_take_mono {A} (w : A → Z) (X Y : list A) :
  (∀ x, 0 ≤ w x) →
  ∀ n n', (n ≤ n')%nat →
          sum_over w (take n X) ≤ sum_over w (take n' (X ++ Y)).
Proof.
  intros Hw. induction X as [|x X IH]; intros n n' Hn.
  - rewrite take_nil. simpl. by apply sum_over_nonneg.
  - destruct n as [|n]; [by apply sum_over_nonneg|].
    destruct n' as [|n']; [lia|]. simpl.
    specialize (IH n n' ltac:(lia)). lia.
Qed.

Lemma fetched_le session k k' :
  (k ≤ k')%nat → ∃ rest, fetched session k' = fetched session k ++ rest.
Proof.
  induction 1 as [|k' _ [rest IH]].
  - exists []. by rewrite app_nil_r.
  - exists (rest ++ results_of (session (S k'))).
    by rewrite fetched_S, IH, app_assoc.
Qed.

Lemma tally_mono (f : tables → Z) (w : journal → Z) session limit limit' k k' :
  (∀ j t, f (journal_body j t) = f t + w j) →
  (∀ j, 0 ≤ w j) →
  limit ≤ limit' → (k ≤ k')%nat →
  f (tally (processed session limit k))
  ≤ f (tally (processed session limit' k')).
Proof.
  intros Hstep Hw Hlimit Hk. unfold tally.
  rewrite !(count_all_additive f w Hstep).
  destruct (fetched_le session k k' Hk) as [rest Hrest].
  unfold processed. rewrite Hrest, filter_app.
  pose proof (sum_over_take_mono w (filter qualifies (fetched session k))
                (filter qualifies rest) Hw
                (Z.to_nat limit) (Z.to_nat limit')).
  lia.
Qed.

(** While the loop goes on, the pages read so far hold fewer qualifying
    records than the budget. *)
Lemma while_loop_heads session limit fuel :
  ∀ k st, at_head session limit k st →
  (∀ i, (i < k)%nat → qualifying_on session i < limit) →
  ∀ i, (i < pred (st_page (result_state (while_loop fuel session limit st))))%nat →
       qualifying_on session i < limit.
Proof.
  induction fuel as [|fuel IH]; intros k st Hhead Hbefore; simpl.
  - destruct Hhead as (Hpage & _).
    destruct (total_processed (st_tables st) <? limit); simpl;
      rewrite Hpage; exact Hbefore.
  - destruct (Z.ltb_spec (total_processed (st_tables st)) limit) as [Hlt|Hge].
    + destruct (session (S k)) as [|results] eqn:Hs.
      { destruct Hhead as (Hpage & _).
        unfold while_body. rewrite Hpage, Hs. simpl. exact Hbefore. }
      destruct results as [|j results].
      { destruct Hhead as (Hpage & _).
        unfold while_body. rewrite Hpage, Hs. simpl. exact Hbefore. }
      destruct (while_body_continue _ _ _ _ _ Hhead Hs) as (st' & -> & Hhead');
        [done|].
      apply (IH (S k) st' Hhead').
      intros i Hi. destruct (decide (i = k)) as [->|Hne]; [|apply Hbefore; lia].
      destruct Hhead as (_ & Htab & _).
      rewrite Htab, tally_total in Hlt. unfold processed in Hlt.
      rewrite length_take in Hlt. unfold qualifying_on. lia.
    + destruct Hhead as (Hpage & _). simpl. rewrite Hpage. exact Hbefore.
Qed.

Lemma run_loop_heads fuel session args st :
  run_loop fuel session args = Some st →
  ∀ i, (i < pred (st_page st))%nat → qualifying_on session i < limit args.
Proof.
  unfold run_loop. intros Hrun.
  pose proof (while_loop_heads session (limit args) fuel 0 init_state
                (at_head_init _ _)) as H.
  destruct (while_loop fuel session (limit args) init_state) as [st'|st'];
    [|done].
  injection Hrun as <-. apply H. intros i Hi. lia.
Qed.

Lemma language_weight_nonneg cat lang j : 0 ≤ language_weight cat lang j.
Proof. unfold language_weight, occurrences. case_decide; lia. Qed.

Lemma subject_weight_nonneg cat key j : 0 ≤ subject_weight cat key j.
Proof. unfold subject_weight. case_decide; lia. Qed.

Lemma year_weight_nonneg cat year j : 0 ≤ year_weight cat year j.
Proof. unfold year_weight. case_decide; lia. Qed.

Lemma license_weight_nonneg cat j : 0 ≤ license_weight cat j.
Proof. unfold license_weight. case_decide; lia. Qed.

(** X20.  Raising the budget never lowers a result: of two runs over the
    same source that return, the one with the larger budget has processed
    at least as many pages, and its processed total, its license counts and
    every cell of its subject, language and year tables are at least those
    of the other run. *)
Theorem larger_budget_counts_more (fuel fuel' : nat)
    (session : nat → response) (args args' : args_t) (st st' : state) :
  limit args ≤ limit args' →
  run_loop fuel session args = Some st →
  run_loop fuel' session args' = Some st' →
  (st_page st ≤ st_page st')%nat
  ∧ total_processed (st_tables st) ≤ total_processed (st_tables st')
  ∧ ∀ cat,
      counter_get (license_counts (st_tables st)) cat
      ≤ counter_get (license_counts (st_tables st')) cat
      ∧ ∀ k,
          cell (subject_counts (st_tables st)) cat k
          ≤ cell (subject_counts (st_tables st')) cat k
          ∧ cell (language_counts (st_tables st)) cat k
            ≤ cell (language_counts (st_tables st')) cat k
          ∧ cell (year_counts (st_tables st)) cat k
            ≤ cell (year_counts (st_tables st')) cat k.
Proof.
  intros Hlimit Hrun Hrun'.
  pose proof (run_loop_heads _ _ _ _ Hrun) as Hheads.
  destruct (run_loop_spec _ _ _ _ Hrun) as (k & how & _ & Hexit).
  destruct (run_loop_spec _ _ _ _ Hrun') as (k' & how' & _ & Hexit').
  destruct Hexit as (Hpage & Htab & Hne & _).
  destruct Hexit' as (Hpage' & Htab' & _ & Hhow').
  rewrite Hpage in Hheads. simpl in Hheads.
  assert (k ≤ k')%nat as Hk.
  { destruct (decide (k ≤ k')%nat) as [|Hgt]; [done|]. exfalso.
    assert (k' < k)%nat as Hlt by lia.
    destruct (Hne (S k')) as (results & Hs & Hres); [lia|].
    destruct how'.
    - destruct Hhow' as [Hge _].
      rewrite Htab', tally_total in Hge. unfold processed in Hge.
      rewrite length_take in Hge.
      specialize (Hheads k' Hlt). unfold qualifying_on in Hheads. lia.
    - destruct Hhow' as (_ & Hs' & _). congruence.
    - destruct Hhow' as (_ & Hs' & _). congruence. }
  rewrite Hpage, Hpage', Htab, Htab'.
  split; [lia|]. split.
  { apply (tally_mono total_processed (λ j, if decide (qualifies j) then 1 else 0));
      try done.
    - intros j t. apply journal_body_total.
    - intros j. case_decide; lia. }
  intros cat. split.
  { apply (tally_mono (λ t, counter_get (license_counts t) cat)
             (license_weight cat)); try done.
    - intros j t. apply journal_body_license.
    - apply license_weight_nonneg. }
  intros key. split_and!.
  - apply (tally_mono (λ t, cell (subject_counts t) cat key)
             (subject_weight cat key)); try done.
    + intros j t. apply journal_body_subject_cell.
    + apply subject_weight_nonneg.
  - apply (tally_mono (λ t, cell (language_counts t) cat key)
             (language_weight cat key)); try done.
    + intros j t. apply journal_body_language_cell.
    + apply language_weight_nonneg.
  - apply (tally_mono (λ t, cell (year_counts t) cat key)
             (year_weight cat key)); try done.
    + intros j t. apply journal_body_year_cell.
    + apply year_weight_nonneg.
Qed.

Lemma larger_budget_counts_more_witness :
  let st := result_state (while_loop 2 session_three_pages 3 init_state) in
  let st' := result_state (while_loop 4 session_three_pages 5 init_state) in
  (st_page st ≤ st_page st')%nat
  ∧ total_processed (st_tables st) ≤ total_processed (st_tables st')
  ∧ ∀ cat,
      counter_get (license_counts (st_tables st)) cat
      ≤ counter_get (license_counts (st_tables st')) cat
      ∧ ∀ k,
          cell (subject_counts (st_tables st)) cat k
          ≤ cell (subject_counts (st_tables st')) cat k
          ∧ cell (language_counts (st_tables st)) cat k
            ≤ cell (language_counts (st_tables st')) cat k
          ∧ cell (year_counts (st_tables st)) cat k
            ≤ cell (year_counts (st_tables st')) cat k.
Proof.
  apply (larger_budget_counts_more 2 4 session_three_pages
           (args_of 3) (args_of 5)
           (result_state (while_loop 2 session_three_pages 3 init_state))
           (result_state (while_loop 4 session_three_pages 5 init_state))).
  - simpl. lia.
  - vm_compute. reflexivity.
  - vm_compute. reflexivity.
Defined.
